(** * FitGym Pro dashboard: the member settings component

    A shallow embedding of
    [frontend/src/components/member/MemberSettings.tsx]: the two regular
    expressions it tests e-mail addresses with, the live validation of the
    input field, and the two asynchronous handlers [handleEmailUpdate] and
    [handlePasswordReset] with their calls to the hosted auth/database
    provider and their toasts.

    JavaScript strings are embedded as [string]; a character stands for a
    code unit in the range U+0000..U+00FF (the pictographs in the console
    lines are kept as the bytes of the source file).  The regular
    expressions of the component are kept as syntax and run by a derivative
    matcher, which is proved to decide the usual language semantics.

    A handler is a computation over the component's state that records the
    calls it makes and can throw.  One run of a handler is modelled from
    the click to the end of its [finally] block; typing or clicks during
    an [await] are not interleaved with it. *)

From Stdlib Require Import String Ascii List Bool Arith Lia.
Import ListNotations.

Set Implicit Arguments.

Local Open Scope string_scope.
Local Open Scope list_scope.

(* ================================================================== *)
(** ** JavaScript string primitives used by the component *)

Module JsString.

(** Truthiness of a string value: every string but the empty one. *)
Definition truthy (s : string) : bool :=
  match s with
  | EmptyString => false
  | String _ _ => true
  end.

(** [s.includes(sub)]: [sub] occurs in [s] at some position. *)
Fixpoint includes (s sub : string) : bool :=
  if String.prefix sub s then true
  else match s with
       | EmptyString => false
       | String _ s' => includes s' sub
       end.

Definition in_range (lo hi c : ascii) : bool :=
  ((nat_of_ascii lo <=? nat_of_ascii c) && (nat_of_ascii c <=? nat_of_ascii hi))%nat.

(** One code unit of [toLowerCase]: A-Z, and the Latin-1 capitals
    U+00C0..U+00DE without the multiplication sign U+00D7. *)
Definition lower_char (c : ascii) : ascii :=
  let n := nat_of_ascii c in
  if in_range "A" "Z" c then ascii_of_nat (n + 32)
  else if ((192 <=? n) && (n <=? 222) && negb (n =? 215))%nat
       then ascii_of_nat (n + 32)
  else c.

Fixpoint toLowerCase (s : string) : string :=
  match s with
  | EmptyString => EmptyString
  | String c s' => String (lower_char c) (toLowerCase s')
  end.

End JsString.

(* ================================================================== *)
(** ** Regular expressions *)

Module Regex.

Inductive regex : Type :=
| Void : regex
| Eps : regex
| Class : (ascii -> bool) -> regex
| Cat : regex -> regex -> regex
| Alt : regex -> regex -> regex
| Star : regex -> regex.

(** Derived forms: [r+], [r{n,}], a literal character, a literal string. *)
Definition Plus (r : regex) : regex := Cat r (Star r).

Fixpoint AtLeast (n : nat) (r : regex) : regex :=
  match n with
  | O => Star r
  | S n' => Cat r (AtLeast n' r)
  end.

Definition Chr (c : ascii) : regex := Class (Ascii.eqb c).

Fixpoint LitL (l : list ascii) : regex :=
  match l with
  | [] => Eps
  | c :: l' => Cat (Chr c) (LitL l')
  end.

Definition Lit (s : string) : regex := LitL (list_ascii_of_string s).

(** Character classes of the component's patterns. *)
Definition any (_ : ascii) : bool := true.
Definition digit (c : ascii) : bool := JsString.in_range "0" "9" c.
Definition lower (c : ascii) : bool := JsString.in_range "a" "z" c.
Definition upper (c : ascii) : bool := JsString.in_range "A" "Z" c.
Definition alnum (c : ascii) : bool := lower c || upper c || digit c.
Definition one_of (s : string) (c : ascii) : bool :=
  existsb (Ascii.eqb c) (list_ascii_of_string s).

Fixpoint nullable (r : regex) : bool :=
  match r with
  | Void => false
  | Eps => true
  | Class _ => false
  | Cat r1 r2 => nullable r1 && nullable r2
  | Alt r1 r2 => nullable r1 || nullable r2
  | Star _ => true
  end.

Fixpoint deriv (c : ascii) (r : regex) : regex :=
  match r with
  | Void => Void
  | Eps => Void
  | Class p => if p c then Eps else Void
  | Cat r1 r2 =>
      if nullable r1 then Alt (Cat (deriv c r1) r2) (deriv c r2)
      else Cat (deriv c r1) r2
  | Alt r1 r2 => Alt (deriv c r1) (deriv c r2)
  | Star r1 => Cat (deriv c r1) (Star r1)
  end.

(** The whole of [s] is a word of [r]. *)
Fixpoint matches (r : regex) (s : list ascii) : bool :=
  match s with
  | [] => nullable r
  | c :: s' => matches (deriv c r) s'
  end.

(** A pattern without flags: the body with its [^] and [$] anchors.
    Without the [m] flag the anchors stand for the two ends of the
    input. *)
Record pattern : Type := Pattern {
  anchored_start : bool;
  body : regex;
  anchored_end : bool
}.

(** [RegExp.prototype.test]: some substring of the input is a word of the
    body, starting at the start if [^] and ending at the end if [$]. *)
Definition test (p : pattern) (s : string) : bool :=
  matches
    (Cat (if anchored_start p then Eps else Star (Class any))
         (Cat (body p)
              (if anchored_end p then Eps else Star (Class any))))
    (list_ascii_of_string s).

(** All the ways to cut a word in two, the longest first part first. *)
Fixpoint splits (s : list ascii) : list (list ascii * list ascii) :=
  match s with
  | [] => [([], [])]
  | c :: s' => map (fun pq => (c :: fst pq, snd pq)) (splits s') ++ [([], s)]
  end.

(** [String.prototype.match] for a pattern [^(g)rest$] whose group is a
    greedy repetition of one character class: the backtracking matcher
    tries the longest repetition first and shortens it until the rest
    matches up to the end.  The result is capture group 1, or [None] for
    JavaScript's [null]. *)
Definition match_group1 (g rest : regex) (s : string) : option string :=
  option_map (fun pq => string_of_list_ascii (fst pq))
    (find (fun pq => matches g (fst pq) && matches rest (snd pq))
          (splits (list_ascii_of_string s))).

(** Language of a regular expression. *)
Inductive Lang : regex -> list ascii -> Prop :=
| LEps : Lang Eps []
| LClass p c : p c = true -> Lang (Class p) [c]
| LCat r1 r2 s1 s2 : Lang r1 s1 -> Lang r2 s2 -> Lang (Cat r1 r2) (s1 ++ s2)
| LAltL r1 r2 s : Lang r1 s -> Lang (Alt r1 r2) s
| LAltR r1 r2 s : Lang r2 s -> Lang (Alt r1 r2) s
| LStarNil r : Lang (Star r) []
| LStarApp r s1 s2 : Lang r s1 -> Lang (Star r) s2 -> Lang (Star r) (s1 ++ s2).

End Regex.

(* ================================================================== *)
(** ** The component *)

Module MemberSettings.

Import JsString Regex.

(** Modelled from the spec: the [Member] type of [@/types], which is not
    among the sources; "identifier, email, verification flag,
    creation/update timestamps", under the names the component reads them
    by. *)
Record Member : Type := mkMember {
  id : string;
  email : string;
  is_verified : bool;
  created_at : string;
  updated_at : string
}.

(** A value thrown by the code or handed back by the provider as an
    error: an object whose [message] is a string or is missing. *)
Module Err.
Record t : Type := mk { message : option string }.
End Err.

(** [new Error(msg)] *)
Definition Error (msg : string) : Err.t := Err.mk (Some msg).

(** [error.message?.includes(sub)], as a condition. *)
Definition message_includes (e : Err.t) (sub : string) : bool :=
  match Err.message e with
  | Some m => includes m sub
  | None => false
  end.

(** [error.message], as a condition. *)
Definition message_truthy (e : Err.t) : bool :=
  match Err.message e with
  | Some m => truthy m
  | None => false
  end.

(** *** Component state (the [useState] cells) *)

Inductive EmailUpdateStatus : Type := idle | pending | success | error.

Record EmailValidation : Type := mkValidation {
  isValid : bool;
  message : string
}.

Record State : Type := mkState {
  newEmail : string;
  emailValidation : option EmailValidation;
  emailUpdateLoading : bool;
  passwordResetLoading : bool;
  emailUpdateStatus : EmailUpdateStatus;
  updatedEmail : string
}.

Definition initialState : State :=
  mkState "" None false false idle "".

(** *** What the component does to the outside *)

Inductive Variant : Type := default | destructive.

Record Toast : Type := mkToast {
  title : string;
  description : string;
  variant : Variant
}.

(** The calls observed from outside, in the order they are made.  Of a
    console call only the leading text is recorded. *)
Inductive Event : Type :=
| toast_ev (t : Toast)
| db_members_update_ev (member_id new_email : string)
| supabase_auth_resetPasswordForEmail_ev (new_email redirectTo : string)
| auth_updateEmail_ev (new_email : string)
| auth_resetPassword_ev (member_email : string)
| onMemberUpdate_ev (m : Member)
| console_log_ev (text : string)
| console_error_ev (text : string).

(** An awaited promise resolves with a value or rejects with a reason. *)
Inductive Awaited (A : Type) : Type :=
| Resolved (a : A)
| Rejected (reason : Err.t).
Arguments Rejected {A} reason.

(** The hosted provider behind [@/lib/supabase], which is not among the
    sources: what each call answers, as the handlers destructure it.
    [db.members.update] answers [{data, error}], the auth calls answer
    [{error}]. *)
Record Provider : Type := mkProvider {
  db_members_update : string -> string -> Awaited (option Member * option Err.t);
  supabase_auth_resetPasswordForEmail : string -> string -> Awaited (option Err.t);
  auth_updateEmail : string -> Awaited (option Err.t);
  auth_resetPassword : string -> Awaited (option Err.t)
}.

(** *** The monad of a handler: state, trace and exceptions *)

Inductive Outcome (A : Type) : Type :=
| Ok (a : A)
| Throw (e : Err.t).
Arguments Throw {A} e.

Definition M (A : Type) : Type := State -> Outcome A * State * list Event.

Definition ret {A} (a : A) : M A := fun st => (Ok a, st, []).

Definition bind {A B} (m : M A) (f : A -> M B) : M B :=
  fun st =>
    match m st with
    | (Ok a, st1, tr1) =>
        match f a st1 with
        | (r, st2, tr2) => (r, st2, tr1 ++ tr2)
        end
    | (Throw e, st1, tr1) => (Throw e, st1, tr1)
    end.

Definition throw {A} (e : Err.t) : M A := fun st => (Throw e, st, []).

Definition get : M State := fun st => (Ok st, st, []).

Definition modify (f : State -> State) : M unit := fun st => (Ok tt, f st, []).

Definition emit (ev : Event) : M unit := fun st => (Ok tt, st, [ev]).

(** [try { m } catch (e) { h e }] *)
Definition try_catch {A} (m : M A) (h : Err.t -> M A) : M A :=
  fun st =>
    match m st with
    | (Ok a, st1, tr1) => (Ok a, st1, tr1)
    | (Throw e, st1, tr1) =>
        match h e st1 with
        | (r, st2, tr2) => (r, st2, tr1 ++ tr2)
        end
    end.

(** [try { m } finally { f }] *)
Definition try_finally {A} (m : M A) (f : M unit) : M A :=
  fun st =>
    match m st with
    | (r, st1, tr1) =>
        match f st1 with
        | (Ok _, st2, tr2) => (r, st2, tr1 ++ tr2)
        | (Throw e, st2, tr2) => (Throw e, st2, tr1 ++ tr2)
        end
    end.

(** [await call]: the call is made, then its answer comes back or its
    rejection is thrown. *)
Definition await {A} (call : Event) (answer : Awaited A) : M A :=
  bind (emit call)
       (fun _ => match answer with
                 | Resolved a => ret a
                 | Rejected e => throw e
                 end).

Declare Scope handler_scope.
Delimit Scope handler_scope with handler.
Notation "x <- m ;; k" := (bind m (fun x => k))
  (at level 61, m at next level, right associativity) : handler_scope.
Notation "m ;; k" := (bind m (fun _ => k))
  (at level 61, right associativity) : handler_scope.
Local Open Scope handler_scope.

(** *** State setters *)

Definition setNewEmail (v : string) : M unit :=
  modify (fun st => mkState v (emailValidation st) (emailUpdateLoading st)
                      (passwordResetLoading st) (emailUpdateStatus st) (updatedEmail st)).
Definition setEmailValidation (v : option EmailValidation) : M unit :=
  modify (fun st => mkState (newEmail st) v (emailUpdateLoading st)
                      (passwordResetLoading st) (emailUpdateStatus st) (updatedEmail st)).
Definition setEmailUpdateLoading (v : bool) : M unit :=
  modify (fun st => mkState (newEmail st) (emailValidation st) v
                      (passwordResetLoading st) (emailUpdateStatus st) (updatedEmail st)).
Definition setPasswordResetLoading (v : bool) : M unit :=
  modify (fun st => mkState (newEmail st) (emailValidation st) (emailUpdateLoading st)
                      v (emailUpdateStatus st) (updatedEmail st)).
Definition setEmailUpdateStatus (v : EmailUpdateStatus) : M unit :=
  modify (fun st => mkState (newEmail st) (emailValidation st) (emailUpdateLoading st)
                      (passwordResetLoading st) v (updatedEmail st)).
Definition setUpdatedEmail (v : string) : M unit :=
  modify (fun st => mkState (newEmail st) (emailValidation st) (emailUpdateLoading st)
                      (passwordResetLoading st) (emailUpdateStatus st) v).

Definition toast (t : Toast) : M unit := emit (toast_ev t).
Definition console_log (text : string) : M unit := emit (console_log_ev text).
Definition console_error (text : string) : M unit := emit (console_error_ev text).

(** *** The patterns *)

(** [/^\d+@gmail\.com$/] *)
Definition temporaryEmailPattern : pattern :=
  Pattern true (Cat (Plus (Class digit)) (Lit "@gmail.com")) true.

Definition isTemporaryEmail (email : string) : bool :=
  test temporaryEmailPattern email.

(** [email.match(/^(\d+)@gmail\.com$/)], then [match ? match[1] : null]. *)
Definition extractMemberIdFromTempEmail (email : string) : option string :=
  match_group1 (Plus (Class digit)) (Lit "@gmail.com") email.

Definition local_part_char (c : ascii) : bool := alnum c || one_of "._%+-" c.
Definition domain_char (c : ascii) : bool := alnum c || one_of ".-" c.
Definition letter (c : ascii) : bool := lower c || upper c.

(** [/^[a-zA-Z0-9._%+-]+@[a-zA-Z0-9.-]+\.[a-zA-Z]{2,}$/] *)
Definition emailRegex : pattern :=
  Pattern true
    (Cat (Plus (Class local_part_char))
      (Cat (Chr "@")
        (Cat (Plus (Class domain_char))
          (Cat (Chr ".") (AtLeast 2 (Class letter))))))
    true.

Definition invalidPatterns : list (pattern * string) :=
  [ (Pattern true (Lit "test@") false, "Please use your real email address");
    (Pattern true (Lit "fake@") false, "Please use your real email address");
    (Pattern true (Lit "temp@") false, "Please use your real email address");
    (Pattern false (Lit "@test.") false, "Please use a real domain");
    (Pattern false (Lit "@fake.") false, "Please use a real domain");
    (Pattern false (Lit "@example.") false, "Please use a real domain") ].

(** *** Live validation of the input field *)

Definition validateEmailFormat (email : string) : M unit :=
  if negb (truthy email) then setEmailValidation None
  else if negb (test emailRegex email) then
    setEmailValidation (Some (mkValidation false "Invalid email format"))
  else
    match find (fun pm => test (fst pm) (toLowerCase email)) invalidPatterns with
    | Some (_, message) => setEmailValidation (Some (mkValidation false message))
    | None => setEmailValidation (Some (mkValidation true "Valid email format"))
    end.

Definition EmailUpdateStatus_eqb (a b : EmailUpdateStatus) : bool :=
  match a, b with
  | idle, idle | pending, pending | success, success | error, error => true
  | _, _ => false
  end.

Definition handleEmailChange (email : string) : M unit :=
  st <- get ;;
  setNewEmail email ;;
  validateEmailFormat email ;;
  if EmailUpdateStatus_eqb (emailUpdateStatus st) error
  then setEmailUpdateStatus idle
  else ret tt.

(** *** The handlers *)

Section Component.

(** The props and what surrounds the component: the member shown, the
    provider's answers, and [window.location.origin].  The parent's
    [onMemberUpdate] callback, a required prop, is recorded as an event;
    it, [toast] and the console do not throw. *)
Variable member : Member.
Variable provider : Provider.
Variable origin : string.

(** The [catch] block of [handleEmailUpdate]: the text put in the toast. *)
Definition emailUpdateErrorMessage (e : Err.t) : string :=
  if isTemporaryEmail (email member) then
    if message_includes e "extract member ID" then
      "Could not process temporary email. Please contact support."
    else if message_includes e "database" then
      "Database update failed. Please contact support."
    else if message_includes e "already exists" || message_includes e "taken" then
      "This email address is already in use. Please choose a different email."
    else
      "Failed to update temporary email. Please contact support if the issue persists."
  else
    if message_includes e "invalid" then
      "The email address format is not accepted. Please use a different email address."
    else if message_includes e "already exists" || message_includes e "taken" then
      "This email address is already in use. Please choose a different email."
    else if message_includes e "rate limit" then
      "Too many requests. Please wait a few minutes before trying again."
    else if message_includes e "network" || message_includes e "connection" then
      "Network error. Please check your connection and try again."
    else
      match Err.message e with
      | Some m => if truthy m then m else "Failed to update email. Please try again."
      | None => "Failed to update email. Please try again."
      end.

Definition handleEmailUpdate_catch (e : Err.t) : M unit :=
  console_error "Email update error:" ;;
  setEmailUpdateStatus error ;;
  toast (mkToast "Error" (emailUpdateErrorMessage e) destructive).

(** The inner [try] of the temporary-email path: the database update, the
    password reset mail to the new address, the success toast. *)
Definition updateTemporaryEmail (newEmail : string) : M unit :=
  try_catch
    (r <- await (db_members_update_ev (id member) newEmail)
                (db_members_update provider (id member) newEmail) ;;
     let updatedMember := fst r in
     let updateError := snd r in
     match updateError with
     | Some e => throw e
     | None =>
         console_log "✅ Member email updated in database:" ;;
         try_catch
           (let redirectTo := (origin ++ "/reset-password")%string in
            resetError <- await (supabase_auth_resetPasswordForEmail_ev newEmail redirectTo)
                                (supabase_auth_resetPasswordForEmail provider newEmail redirectTo) ;;
            match resetError with
            | Some _ => console_log "⚠️ Password reset failed:"
            | None => console_log "✅ Password reset sent to new email"
            end)
           (fun resetSetupError => console_log "⚠️ Reset setup failed:") ;;
         setEmailUpdateStatus pending ;;
         setUpdatedEmail newEmail ;;
         toast (mkToast "Email Updated Successfully"
                  ("Your email has been updated to " ++ newEmail ++
                   ". A password setup email has been sent to your new address. Please check your inbox and follow the instructions to complete the setup.")%string
                  default) ;;
         match updatedMember with
         | Some m => emit (onMemberUpdate_ev m)
         | None => ret tt
         end
     end)
    (fun dbError =>
       console_error "❌ Database update failed:" ;;
       throw (Error "Failed to update email in database")).

(** The outer [try] block of [handleEmailUpdate]. *)
Definition handleEmailUpdate_try (newEmail : string) : M unit :=
  (if isTemporaryEmail (email member) then
     console_log "🔄 Handling temporary email update..." ;;
     let tempMemberId := extractMemberIdFromTempEmail (email member) in
     console_log "📧 Extracted member ID from temp email:" ;;
     match tempMemberId with
     | Some tid =>
         if truthy tid then updateTemporaryEmail newEmail
         else throw (Error "Could not extract member ID from temporary email")
     | None => throw (Error "Could not extract member ID from temporary email")
     end
   else
     console_log "🔄 Handling regular email update..." ;;
     err <- await (auth_updateEmail_ev newEmail) (auth_updateEmail provider newEmail) ;;
     match err with
     | Some e => throw e
     | None =>
         setEmailUpdateStatus pending ;;
         toast (mkToast "Verification Email Sent"
                  ("A verification email has been sent to " ++ newEmail ++
                   ". Please check your inbox and click the verification link to confirm your new email address.")%string
                  default)
     end) ;;
  setNewEmail "" ;;
  setEmailValidation None.

Definition handleEmailUpdate : M unit :=
  st <- get ;;
  let newEmail := newEmail st in
  if negb (truthy newEmail) || String.eqb newEmail (email member) then
    toast (mkToast "Error" "Please enter a new email address" destructive)
  else if negb (test emailRegex newEmail) then
    toast (mkToast "Error" "Please enter a valid email address" destructive)
  else
    setEmailUpdateLoading true ;;
    setEmailUpdateStatus idle ;;
    try_finally
      (try_catch (handleEmailUpdate_try newEmail) handleEmailUpdate_catch)
      (setEmailUpdateLoading false).

(** The [catch] block of [handlePasswordReset]: the text put in the toast. *)
Definition passwordResetErrorMessage (e : Err.t) : string :=
  if message_includes e "rate limit" then
    "Too many requests. Please wait a few minutes before trying again."
  else if message_includes e "not found" || message_includes e "invalid" then
    "Email address not found. Please contact support."
  else
    match Err.message e with
    | Some m => if truthy m then m
                else "Failed to send password reset email. Please try again."
    | None => "Failed to send password reset email. Please try again."
    end.

Definition handlePasswordReset : M unit :=
  if negb (truthy (email member)) then
    toast (mkToast "Error" "No email address found for your account" destructive)
  else
    setPasswordResetLoading true ;;
    try_finally
      (try_catch
         (err <- await (auth_resetPassword_ev (email member))
                       (auth_resetPassword provider (email member)) ;;
          match err with
          | Some e => throw e
          | None =>
              toast (mkToast "Password Reset Email Sent"
                       ("A password reset email has been sent to " ++ email member ++
                        ". Please check your inbox and follow the instructions to reset your password.")%string
                       default)
          end)
         (fun e =>
            console_error "Password reset error:" ;;
            toast (mkToast "Error" (passwordResetErrorMessage e) destructive)))
      (setPasswordResetLoading false).

(** The [disabled] attribute of the update button. *)
Definition updateButtonDisabled (st : State) : bool :=
  emailUpdateLoading st
  || negb (truthy (newEmail st))
  || match emailValidation st with
     | Some v => negb (isValid v)
     | None => false
     end.

(** Modelled from the spec: the [Button] of [@/components/ui/button] is
    not among the sources.  A click on the update button: a disabled button
    dispatches no click, an enabled one runs its [onClick], which is
    [handleEmailUpdate]. *)
Definition clickUpdateButton : M unit :=
  st <- get ;;
  if updateButtonDisabled st then ret tt else handleEmailUpdate.

End Component.

(** *** Reading a trace *)

Definition toasts (tr : list Event) : list Toast :=
  flat_map (fun ev => match ev with toast_ev t => [t] | _ => [] end) tr.

Definition is_provider_call (ev : Event) : bool :=
  match ev with
  | db_members_update_ev _ _
  | supabase_auth_resetPasswordForEmail_ev _ _
  | auth_updateEmail_ev _
  | auth_resetPassword_ev _ => true
  | _ => false
  end.

Definition provider_calls (tr : list Event) : list Event :=
  filter is_provider_call tr.

Definition db_members_update_calls (tr : list Event) : list (string * string) :=
  flat_map (fun ev => match ev with
                      | db_members_update_ev i e => [(i, e)]
                      | _ => []
                      end) tr.

Definition auth_updateEmail_calls (tr : list Event) : list string :=
  flat_map (fun ev => match ev with auth_updateEmail_ev e => [e] | _ => [] end) tr.

(** A provider call fails when it resolves with an [error] or rejects. *)
Definition auth_failure (a : Awaited (option Err.t)) : option Err.t :=
  match a with
  | Resolved err => err
  | Rejected e => Some e
  end.

Definition db_failure (a : Awaited (option Member * option Err.t)) : option Err.t :=
  match a with
  | Resolved r => snd r
  | Rejected e => Some e
  end.

(** The line logged after [resetPasswordForEmail], by its answer. *)
Definition reset_log_text (a : Awaited (option Err.t)) : string :=
  match a with
  | Resolved None => "✅ Password reset sent to new email"
  | Resolved (Some _) => "⚠️ Password reset failed:"
  | Rejected _ => "⚠️ Reset setup failed:"
  end.

(** The two success toasts of [handleEmailUpdate]. *)
Definition emailUpdatedToast (newEmail : string) : Toast :=
  mkToast "Email Updated Successfully"
    ("Your email has been updated to " ++ newEmail ++
     ". A password setup email has been sent to your new address. Please check your inbox and follow the instructions to complete the setup.")%string
    default.

Definition verificationSentToast (newEmail : string) : Toast :=
  mkToast "Verification Email Sent"
    ("A verification email has been sent to " ++ newEmail ++
     ". Please check your inbox and click the verification link to confirm your new email address.")%string
    default.

Definition trace_of {A} (r : Outcome A * State * list Event) : list Event := snd r.
Definition state_of {A} (r : Outcome A * State * list Event) : State := snd (fst r).
Definition outcome_of {A} (r : Outcome A * State * list Event) : Outcome A := fst (fst r).

(** The state a run of [handleEmailUpdate] ends in when it fails, and when
    it succeeds. *)
Definition failed (st : State) : State :=
  mkState (newEmail st) (emailValidation st) false (passwordResetLoading st)
          error (updatedEmail st).

Definition succeeded (st : State) (shown : string) : State :=
  mkState "" None false (passwordResetLoading st) pending shown.

(** The state the [try] block of [handleEmailUpdate] starts in. *)
Definition started (st : State) : State :=
  mkState (newEmail st) (emailValidation st) true (passwordResetLoading st)
          idle (updatedEmail st).

(** *** The error classification, in the spec's words

    "Substring matching on error.message in this fixed order": a table of
    rules, each a list of substrings and the text shown when the message
    contains one of them; the first rule that applies wins, and when none
    does the text is [otherwise]. *)

Definition spec_classify (rules : list (list string * string))
    (otherwise : Err.t -> string) (e : Err.t) : string :=
  match find (fun rule => existsb (message_includes e) (fst rule)) rules with
  | Some rule => snd rule
  | None => otherwise e
  end.

(** "A non-empty message is shown verbatim; else the default." *)
Definition spec_verbatim_or (dflt : string) (e : Err.t) : string :=
  match Err.message e with
  | Some m => if String.eqb m "" then dflt else m
  | None => dflt
  end.

Definition spec_regular_rules : list (list string * string) :=
  [ (["invalid"],
     "The email address format is not accepted. Please use a different email address.");
    (["already exists"; "taken"],
     "This email address is already in use. Please choose a different email.");
    (["rate limit"],
     "Too many requests. Please wait a few minutes before trying again.");
    (["network"; "connection"],
     "Network error. Please check your connection and try again.") ].

Definition spec_temporary_rules : list (list string * string) :=
  [ (["extract member ID"],
     "Could not process temporary email. Please contact support.");
    (["database"],
     "Database update failed. Please contact support.");
    (["already exists"; "taken"],
     "This email address is already in use. Please choose a different email.") ].

Definition spec_password_rules : list (list string * string) :=
  [ (["rate limit"],
     "Too many requests. Please wait a few minutes before trying again.");
    (["not found"; "invalid"],
     "Email address not found. Please contact support.") ].

(** *** Sample props and answers *)

Definition temporaryMember : Member :=
  mkMember "6f1c2a9e-17" "1042@gmail.com" false "2024-03-01" "2024-03-01".

Definition regularMember : Member :=
  mkMember "6f1c2a9e-18" "jane.doe@gmail.com" true "2024-03-01" "2024-04-02".

Definition noEmailMember : Member :=
  mkMember "6f1c2a9e-19" "" false "2024-03-01" "2024-03-01".

(** The input field holds [typed], nothing else has happened. *)
Definition typing (typed : string) : State :=
  mkState typed None false false idle "".

(** Every call succeeds. *)
Definition obligingProvider : Provider :=
  mkProvider (fun _ new_email =>
                Resolved (Some (mkMember "6f1c2a9e-17" new_email false
                                         "2024-03-01" "2024-05-05"), None))
             (fun _ _ => Resolved None)
             (fun _ => Resolved None)
             (fun _ => Resolved None).

(** Every call resolves with the error [e]. *)
Definition refusingProvider (e : Err.t) : Provider :=
  mkProvider (fun _ _ => Resolved (None, Some e))
             (fun _ _ => Resolved (Some e))
             (fun _ => Resolved (Some e))
             (fun _ => Resolved (Some e)).

(** The database update succeeds, the password reset mail is rejected. *)
Definition noMailProvider (e : Err.t) : Provider :=
  mkProvider (fun _ _ => Resolved (None, None))
             (fun _ _ => Rejected e)
             (fun _ => Resolved None)
             (fun _ => Resolved None).

(** *** The glossary's temporary email

    "Placeholder address of the form {memberID}@gmail.com": one or more
    digits immediately followed by "@gmail.com". *)

Definition all_digits (d : string) : bool :=
  forallb digit (list_ascii_of_string d).

Definition temporary_email_form (s : string) : Prop :=
  exists d : string,
    d <> "" /\ all_digits d = true /\ s = (d ++ "@gmail.com")%string.

End MemberSettings.

(* ================================================================== *)
(** ** The rest of the e-mail card *)

Module SettingsView.

Import JsString Regex MemberSettings.
Local Open Scope handler_scope.

(** The value [validateEmailFormat] stores in [emailValidation] for an
    input. *)
Definition verdict (email : string) : option EmailValidation :=
  emailValidation (state_of (validateEmailFormat email initialState)).

(** The [onClick] of the Reset button. *)
Definition resetForm : M unit :=
  setEmailUpdateStatus idle ;;
  setNewEmail "" ;;
  setEmailValidation None ;;
  setUpdatedEmail "".

(** The Reset button is rendered under [emailUpdateStatus === 'error']. *)
Definition resetButtonShown (st : State) : bool :=
  EmailUpdateStatus_eqb (emailUpdateStatus st) error.

(** A click on the Reset button, when it is there to be clicked. *)
Definition clickResetButton : M unit :=
  st <- get ;;
  if resetButtonShown st then resetForm else ret tt.

(** The [disabled] attribute of the input field. *)
Definition inputDisabled (st : State) : bool := emailUpdateLoading st.

(** *** A well-formed address, in words

    A local part, "@", a domain, ".", and a top-level part of at least two
    letters; the local part and the domain are non-empty and made of the
    characters their classes allow. *)

Definition all_chars (p : ascii -> bool) (s : string) : bool :=
  forallb p (list_ascii_of_string s).

Definition well_formed_email (s : string) : Prop :=
  exists l d t : string,
    s = (l ++ "@" ++ d ++ "." ++ t)%string
    /\ l <> "" /\ all_chars local_part_char l = true
    /\ d <> "" /\ all_chars domain_char d = true
    /\ 2 <= String.length t /\ all_chars letter t = true.

(** The lower-cased input starts with one of the three fake local parts,
    or contains one of the three fake domains. *)
Definition fake_local_part (email : string) : bool :=
  String.prefix "test@" (toLowerCase email)
  || String.prefix "fake@" (toLowerCase email)
  || String.prefix "temp@" (toLowerCase email).

Definition fake_domain (email : string) : bool :=
  includes (toLowerCase email) "@test."
  || includes (toLowerCase email) "@fake."
  || includes (toLowerCase email) "@example.".

(** The new address passes the two guards of [handleEmailUpdate]. *)
Definition accepted (member : Member) (st : State) : Prop :=
  newEmail st <> ""
  /\ newEmail st <> email member
  /\ test emailRegex (newEmail st) = true.

Definition onMemberUpdate_calls (tr : list Event) : list Member :=
  flat_map (fun ev => match ev with onMemberUpdate_ev m => [m] | _ => [] end) tr.

(** *** A session with the card *)

(** What the user can do on the card: type in the input field, click the
    update button, the Reset button, or the password button.  (The log-out
    button of the 'pending' panel leaves the page, which ends the
    session.) *)
Inductive Action : Type :=
| type_in (text : string)
| click_update
| click_reset
| click_change_password.

(** The [disabled] attribute of the password button. *)
Definition passwordButtonDisabled (st : State) : bool := passwordResetLoading st.

Section Session.

Variable member : Member.
Variable origin : string.

(** An action runs the handler behind the control, if the control is
    there and enabled. *)
Definition perform (provider : Provider) (a : Action) : M unit :=
  match a with
  | type_in text =>
      st <- get ;;
      if inputDisabled st then ret tt else handleEmailChange text
  | click_update => clickUpdateButton member provider origin
  | click_reset => clickResetButton
  | click_change_password =>
      st <- get ;;
      if passwordButtonDisabled st then ret tt
      else handlePasswordReset member provider
  end.

(** The states of the card while its props stay as they are: it is
    mounted in [initialState], the initial values of the [useState] cells,
    and each action runs to its end against what the provider answers at
    that time. *)
Inductive reachable : State -> Prop :=
| reachable_initial : reachable initialState
| reachable_step (st : State) (provider : Provider) (a : Action) :
    reachable st -> reachable (state_of (perform provider a st)).

End Session.

(** Three facts that every state of a session has: the verdict shown
    belongs to the text in the input, the status is not 'success', and for
    a member with a temporary address a 'pending' status comes with an
    [updatedEmail] that passed the guards of [handleEmailUpdate]. *)
Definition settled (member : Member) (st : State) : Prop :=
  emailValidation st = verdict (newEmail st)
  /\ emailUpdateStatus st <> success
  /\ (isTemporaryEmail (email member) = true ->
      emailUpdateStatus st = pending ->
      test emailRegex (updatedEmail st) = true
      /\ updatedEmail st <> email member).

End SettingsView.

(* ================================================================== *)
(** ** The matcher decides the language *)

Module RegexFacts.

Import Regex.

Lemma Lang_Eps_inv s : Lang Eps s -> s = [].
Proof. intros H; inversion H; reflexivity. Qed.

Lemma Lang_Class_inv p s : Lang (Class p) s -> exists c, s = [c] /\ p c = true.
Proof. intros H; inversion H; subst; eauto. Qed.

Lemma Lang_Cat_inv r1 r2 s :
  Lang (Cat r1 r2) s -> exists s1 s2, s = s1 ++ s2 /\ Lang r1 s1 /\ Lang r2 s2.
Proof. intros H; inversion H; subst; eauto. Qed.

Lemma Lang_Alt_inv r1 r2 s : Lang (Alt r1 r2) s -> Lang r1 s \/ Lang r2 s.
Proof. intros H; inversion H; subst; auto. Qed.

Lemma Lang_Void_inv s : ~ Lang Void s.
Proof. intros H; inversion H. Qed.

(** A non-empty word of [r*] starts with a non-empty word of [r]. *)
Lemma Lang_Star_cons_inv r c s :
  Lang (Star r) (c :: s) ->
  exists s1 s2, s = s1 ++ s2 /\ Lang r (c :: s1) /\ Lang (Star r) s2.
Proof.
  intros H.
  remember (Star r) as r' eqn:Hr.
  remember (c :: s) as w eqn:Hw.
  revert Hr c s Hw.
  induction H as [ | | | | | r0 | r0 s1 s2 H1 _ H2 IH2 ]; intros Hr c' s' Hw;
    try discriminate.
  injection Hr as ->.
  destruct s1 as [ | a s1 ].
  - simpl in Hw. apply IH2; auto.
  - simpl in Hw. injection Hw as -> <-. eauto.
Qed.

Lemma nullable_Lang r : nullable r = true <-> Lang r [].
Proof.
  induction r as [ | | p | r1 IH1 r2 IH2 | r1 IH1 r2 IH2 | r IH ]; simpl.
  - split; [ discriminate | intros H; inversion H ].
  - split; [ constructor | reflexivity ].
  - split; [ discriminate | intros H; inversion H ].
  - rewrite andb_true_iff, IH1, IH2. split.
    + intros [H1 H2]. exact (LCat H1 H2).
    + intros H. apply Lang_Cat_inv in H as (s1 & s2 & E & H1 & H2).
      symmetry in E. apply app_eq_nil in E as [-> ->]. auto.
  - rewrite orb_true_iff, IH1, IH2. split.
    + intros [H | H]; [ apply LAltL | apply LAltR ]; assumption.
    + apply Lang_Alt_inv.
  - split; [ constructor | reflexivity ].
Qed.

Lemma Lang_deriv c r : forall s, Lang (deriv c r) s <-> Lang r (c :: s).
Proof.
  induction r as [ | | p | r1 IH1 r2 IH2 | r1 IH1 r2 IH2 | r IH ]; intros s; simpl.
  - split; intros H; inversion H.
  - split; intros H; inversion H.
  - destruct (p c) eqn:Hp; split; intros H.
    + apply Lang_Eps_inv in H as ->. constructor; assumption.
    + constructor || (inversion H; subst; constructor).
    + inversion H.
    + inversion H; subst; congruence.
  - assert (Hcons : Lang (Cat (deriv c r1) r2) s ->
                    Lang (Cat r1 r2) (c :: s)).
    { intros H. apply Lang_Cat_inv in H as (s1 & s2 & -> & H1 & H2).
      apply IH1 in H1. exact (LCat H1 H2). }
    destruct (nullable r1) eqn:Hn; split; intros H.
    + apply Lang_Alt_inv in H as [H | H]; [ auto | ].
      apply IH2 in H. apply nullable_Lang in Hn.
      exact (LCat Hn H).
    + apply Lang_Cat_inv in H as (s1 & s2 & E & H1 & H2).
      destruct s1 as [ | a s1 ]; simpl in E.
      * subst s2. apply LAltR, IH2; assumption.
      * injection E as <- ->. apply LAltL, LCat; [ apply IH1 | ]; assumption.
    + auto.
    + apply Lang_Cat_inv in H as (s1 & s2 & E & H1 & H2).
      destruct s1 as [ | a s1 ]; simpl in E.
      * apply nullable_Lang in H1. congruence.
      * injection E as <- ->. apply LCat; [ apply IH1 | ]; assumption.
  - split; intros H.
    + apply Lang_Alt_inv in H as [H | H];
        [ apply LAltL, IH1 | apply LAltR, IH2 ]; assumption.
    + apply Lang_Alt_inv in H as [H | H];
        [ apply LAltL, IH1 | apply LAltR, IH2 ]; assumption.
  - split; intros H.
    + apply Lang_Cat_inv in H as (s1 & s2 & -> & H1 & H2).
      apply IH in H1. exact (LStarApp H1 H2).
    + apply Lang_Star_cons_inv in H as (s1 & s2 & -> & H1 & H2).
      apply LCat; [ apply IH | ]; assumption.
Qed.

Lemma matches_Lang s : forall r, matches r s = true <-> Lang r s.
Proof.
  induction s as [ | c s IH ]; intros r; simpl.
  - apply nullable_Lang.
  - rewrite IH. apply Lang_deriv.
Qed.

(** *** Languages of the derived forms *)

Lemma Lang_Lit l : forall s, Lang (LitL l) s <-> s = l.
Proof.
  induction l as [ | c l IH ]; intros s; simpl.
  - split; [ apply Lang_Eps_inv | intros ->; constructor ].
  - split.
    + intros H. apply Lang_Cat_inv in H as (s1 & s2 & -> & H1 & H2).
      apply Lang_Class_inv in H1 as (a & -> & Ha).
      apply Ascii.eqb_eq in Ha as <-. apply IH in H2 as ->. reflexivity.
    + intros ->. change (c :: l) with ([c] ++ l).
      apply LCat; [ | apply IH; reflexivity ].
      constructor. apply Ascii.eqb_refl.
Qed.

Lemma Lang_Star_Class p s : Lang (Star (Class p)) s <-> forallb p s = true.
Proof.
  split.
  - induction s as [ | c s IH ]; intros H; simpl; [ reflexivity | ].
    apply Lang_Star_cons_inv in H as (s1 & s2 & -> & H1 & H2).
    apply Lang_Class_inv in H1 as (a & E & Ha).
    injection E as <- ->. simpl in *. rewrite Ha, IH; auto.
  - induction s as [ | c s IH ]; simpl; intros H; [ constructor | ].
    apply andb_true_iff in H as [Hc Hs].
    change (c :: s) with ([c] ++ s).
    apply LStarApp; [ constructor; assumption | auto ].
Qed.

Lemma Lang_Plus_Class p s :
  Lang (Plus (Class p)) s <-> s <> [] /\ forallb p s = true.
Proof.
  unfold Plus. split.
  - intros H. apply Lang_Cat_inv in H as (s1 & s2 & -> & H1 & H2).
    apply Lang_Class_inv in H1 as (a & -> & Ha).
    apply Lang_Star_Class in H2. simpl. rewrite Ha, H2.
    split; [ discriminate | reflexivity ].
  - intros [Hne H]. destruct s as [ | c s ]; [ congruence | ].
    simpl in H. apply andb_true_iff in H as [Hc Hs].
    change (c :: s) with ([c] ++ s).
    apply LCat; [ constructor; assumption | apply Lang_Star_Class; assumption ].
Qed.

(** A pattern anchored at both ends tests the whole input. *)
Lemma test_anchored b s :
  test (Pattern true b true) s = true <-> Lang b (list_ascii_of_string s).
Proof.
  unfold test; simpl. rewrite matches_Lang. split.
  - intros H. apply Lang_Cat_inv in H as (s1 & s2 & E & H1 & H2).
    apply Lang_Eps_inv in H1 as ->.
    apply Lang_Cat_inv in H2 as (s3 & s4 & -> & H3 & H4).
    apply Lang_Eps_inv in H4 as ->.
    simpl in E. rewrite app_nil_r in E. rewrite E. assumption.
  - intros H.
    change (list_ascii_of_string s) with ([] ++ list_ascii_of_string s).
    apply LCat; [ constructor | ].
    rewrite <- (app_nil_r (list_ascii_of_string s)).
    apply LCat; [ assumption | constructor ].
Qed.

(** *** Cutting a word *)

Lemma splits_spec s : forall p q, In (p, q) (splits s) <-> p ++ q = s.
Proof.
  induction s as [ | c s IH ]; intros p q; simpl.
  - split.
    + intros [E | []]. injection E as <- <-. reflexivity.
    + intros E. apply app_eq_nil in E as [-> ->]. auto.
  - rewrite in_app_iff, in_map_iff. simpl. split.
    + intros [((p' & q') & E & Hin) | [E | []]].
      * simpl in E. injection E as <- <-. apply IH in Hin. simpl. congruence.
      * injection E as <- <-. reflexivity.
    + intros E. destruct p as [ | a p ]; simpl in E.
      * right. left. congruence.
      * injection E as -> E. left. exists (p, q). split; [ reflexivity | ].
        apply IH. assumption.
Qed.

End RegexFacts.

(* ================================================================== *)
(** ** Temporary e-mail addresses *)

Module TemporaryEmail.

Import JsString Regex RegexFacts MemberSettings.

Lemma list_ascii_of_string_app (a b : string) :
  list_ascii_of_string (a ++ b) = list_ascii_of_string a ++ list_ascii_of_string b.
Proof. induction a as [ | c a IH ]; simpl; [ | rewrite IH ]; reflexivity. Qed.

Lemma string_of_list_ascii_app (a b : list ascii) :
  string_of_list_ascii (a ++ b) = (string_of_list_ascii a ++ string_of_list_ascii b)%string.
Proof. induction a as [ | c a IH ]; simpl; [ | rewrite IH ]; reflexivity. Qed.

Lemma list_ascii_of_string_nil (s : string) :
  list_ascii_of_string s = [] <-> s = "".
Proof. destruct s; simpl; split; congruence. Qed.

(** The language of [\d+@gmail\.com], on lists of characters. *)
Lemma Lang_temporary (w : list ascii) :
  Lang (Cat (Plus (Class digit)) (Lit "@gmail.com")) w <->
  exists d, d <> [] /\ forallb digit d = true /\
            w = d ++ list_ascii_of_string "@gmail.com".
Proof.
  unfold Lit. split.
  - intros H. apply Lang_Cat_inv in H as (d & l & -> & Hd & Hl).
    apply Lang_Plus_Class in Hd as [Hne Hd]. apply Lang_Lit in Hl as ->.
    exists d. auto.
  - intros (d & Hne & Hd & ->).
    apply LCat; [ apply Lang_Plus_Class; auto | apply Lang_Lit; reflexivity ].
Qed.

Lemma isTemporaryEmail_form (s : string) :
  isTemporaryEmail s = true <-> temporary_email_form s.
Proof.
  unfold isTemporaryEmail, temporaryEmailPattern, temporary_email_form, all_digits.
  rewrite test_anchored, Lang_temporary. split.
  - intros (d & Hne & Hd & E). exists (string_of_list_ascii d).
    rewrite list_ascii_of_string_of_list_ascii. repeat split.
    + intros C. apply Hne. rewrite <- (list_ascii_of_string_of_list_ascii d), C.
      reflexivity.
    + assumption.
    + rewrite <- (string_of_list_ascii_of_string s), E, string_of_list_ascii_app.
      rewrite string_of_list_ascii_of_string. reflexivity.
  - intros (d & Hne & Hd & ->). exists (list_ascii_of_string d). repeat split.
    + rewrite list_ascii_of_string_nil. assumption.
    + assumption.
    + apply list_ascii_of_string_app.
Qed.

(** The capture group is the digit prefix, and there is one whenever the
    address has the temporary form. *)
Lemma extractMemberIdFromTempEmail_Some (s d : string) :
  extractMemberIdFromTempEmail s = Some d <->
  d <> "" /\ all_digits d = true /\ s = (d ++ "@gmail.com")%string.
Proof.
  unfold extractMemberIdFromTempEmail, match_group1, all_digits.
  set (pred := fun pq : list ascii * list ascii =>
                 matches (Plus (Class digit)) (fst pq)
                 && matches (Lit "@gmail.com") (snd pq)).
  assert (Hpred : forall p q, pred (p, q) = true <->
            (p <> [] /\ forallb digit p = true)
            /\ q = list_ascii_of_string "@gmail.com").
  { intros p q. unfold pred; simpl.
    rewrite andb_true_iff, !matches_Lang, Lang_Plus_Class.
    unfold Lit. rewrite Lang_Lit. reflexivity. }
  split.
  - destruct (find pred (splits (list_ascii_of_string s))) as [[p q] | ] eqn:F;
      simpl; [ | discriminate ].
    intros E. injection E as <-.
    apply find_some in F as [Hin Hp].
    apply splits_spec in Hin. apply Hpred in Hp as [[Hne Hd] ->].
    rewrite list_ascii_of_string_of_list_ascii. repeat split.
    + intros C. apply Hne. rewrite <- (list_ascii_of_string_of_list_ascii p), C.
      reflexivity.
    + assumption.
    + rewrite <- (string_of_list_ascii_of_string s), <- Hin, string_of_list_ascii_app.
      rewrite string_of_list_ascii_of_string. reflexivity.
  - intros (Hne & Hd & ->).
    rewrite list_ascii_of_string_app.
    destruct (find pred _) as [[p q] | ] eqn:F; simpl.
    + apply find_some in F as [Hin Hp].
      apply splits_spec in Hin. apply Hpred in Hp as [_ ->].
      apply app_inv_tail in Hin as ->.
      rewrite string_of_list_ascii_of_string. reflexivity.
    + exfalso.
      assert (Hin : In (list_ascii_of_string d, list_ascii_of_string "@gmail.com")
                       (splits (list_ascii_of_string d ++ list_ascii_of_string "@gmail.com")))
        by (apply splits_spec; reflexivity).
      apply (find_none _ _ F) in Hin.
      assert (Ht : pred (list_ascii_of_string d, list_ascii_of_string "@gmail.com") = true).
      { apply Hpred. repeat split; auto. rewrite list_ascii_of_string_nil. assumption. }
      congruence.
Qed.

Lemma append_gmail_inj (a b : string) :
  (a ++ "@gmail.com")%string = (b ++ "@gmail.com")%string -> a = b.
Proof.
  intros E. apply (f_equal list_ascii_of_string) in E.
  rewrite !list_ascii_of_string_app in E. apply app_inv_tail in E.
  rewrite <- (string_of_list_ascii_of_string a), E.
  apply string_of_list_ascii_of_string.
Qed.

Lemma truthy_nonempty (s : string) : truthy s = true <-> s <> "".
Proof. destruct s; simpl; split; congruence. Qed.

(** What [handleEmailUpdate] relies on: for a temporary address the
    extracted id is there and is truthy. *)
Lemma extract_of_temporary (s : string) :
  isTemporaryEmail s = true ->
  exists d, extractMemberIdFromTempEmail s = Some d /\ truthy d = true.
Proof.
  intros H. apply isTemporaryEmail_form in H as (d & Hne & Hd & E).
  exists d. split.
  - apply extractMemberIdFromTempEmail_Some. auto.
  - apply truthy_nonempty. assumption.
Qed.

Example isTemporaryEmail_staff_address :
  isTemporaryEmail "1042@gmail.com" = true.
Proof. vm_compute. reflexivity. Qed.

Example isTemporaryEmail_real_address :
  isTemporaryEmail "jane42@gmail.com" = false.
Proof. vm_compute. reflexivity. Qed.

Example isTemporaryEmail_no_digits :
  isTemporaryEmail "@gmail.com" = false.
Proof. vm_compute. reflexivity. Qed.

Example isTemporaryEmail_longer_domain :
  isTemporaryEmail "1042@gmail.com.au" = false.
Proof. vm_compute. reflexivity. Qed.

Example isTemporaryEmail_dot_is_literal :
  isTemporaryEmail "1042@gmail-com" = false.
Proof. vm_compute. reflexivity. Qed.

Example extractMemberIdFromTempEmail_staff_address :
  extractMemberIdFromTempEmail "1042@gmail.com" = Some "1042".
Proof. vm_compute. reflexivity. Qed.

Example extractMemberIdFromTempEmail_real_address :
  extractMemberIdFromTempEmail "jane42@gmail.com" = None.
Proof. vm_compute. reflexivity. Qed.

(** C3. [isTemporaryEmail] returns true exactly for the strings made of one
    or more digits immediately followed by "@gmail.com" and false for every
    other string; an address at gmail.com whose local part has a character
    that is not a digit is not classified as temporary. *)
Theorem isTemporaryEmail_exact (s : string) :
  (isTemporaryEmail s = true <-> temporary_email_form s)
  /\ (isTemporaryEmail s = false <-> ~ temporary_email_form s)
  /\ (forall local c,
        In c (list_ascii_of_string local) -> digit c = false ->
        isTemporaryEmail (local ++ "@gmail.com") = false).
Proof.
  split; [ apply isTemporaryEmail_form | split ].
  - rewrite <- isTemporaryEmail_form.
    destruct (isTemporaryEmail s); split; congruence.
  - intros local c Hin Hc.
    destruct (isTemporaryEmail (local ++ "@gmail.com")) eqn:T; [ | reflexivity ].
    apply isTemporaryEmail_form in T as (d & _ & Hd & E).
    apply append_gmail_inj in E as ->.
    unfold all_digits in Hd. rewrite forallb_forall in Hd.
    apply Hd in Hin. congruence.
Qed.

Lemma isTemporaryEmail_exact_witness :
  (isTemporaryEmail "1042@gmail.com" = true
   <-> temporary_email_form "1042@gmail.com")
  /\ (isTemporaryEmail "1042@gmail.com" = false
      <-> ~ temporary_email_form "1042@gmail.com")
  /\ isTemporaryEmail ("jane42" ++ "@gmail.com") = false.
Proof.
  destruct (isTemporaryEmail_exact "1042@gmail.com") as (H1 & H2 & H3).
  split; [ exact H1 | split; [ exact H2 | ] ].
  apply (H3 "jane42" "j"%char).
  - simpl. left. reflexivity.
  - reflexivity.
Defined.

(** [isTemporaryEmail] is true if and only if
    [extractMemberIdFromTempEmail] returns a non-null value, which is then
    the digit prefix of the string. *)
Lemma extract_iff_temporary (s : string) :
  (isTemporaryEmail s = true <-> extractMemberIdFromTempEmail s <> None)
  /\ (forall d, extractMemberIdFromTempEmail s = Some d ->
                all_digits d = true /\ truthy d = true
                /\ s = (d ++ "@gmail.com")%string).
Proof.
  split.
  - split.
    + intros H. apply extract_of_temporary in H as (d & -> & _). discriminate.
    + intros H. destruct (extractMemberIdFromTempEmail s) as [d | ] eqn:E;
        [ | congruence ].
      apply extractMemberIdFromTempEmail_Some in E.
      apply isTemporaryEmail_form. exists d. assumption.
  - intros d E. apply extractMemberIdFromTempEmail_Some in E as (Hne & Hd & ->).
    rewrite truthy_nonempty. auto.
Qed.

End TemporaryEmail.

(* ================================================================== *)
(** ** Runs of the handlers *)

Module Runs.

Import JsString Regex RegexFacts MemberSettings TemporaryEmail.
Local Open Scope handler_scope.

#[local] Arguments isTemporaryEmail : simpl never.
#[local] Arguments extractMemberIdFromTempEmail : simpl never.
#[local] Arguments test : simpl never.
#[local] Arguments includes : simpl never.
#[local] Arguments String.append : simpl never.
#[local] Arguments emailUpdateErrorMessage : simpl never.
#[local] Arguments passwordResetErrorMessage : simpl never.
#[local] Arguments updateTemporaryEmail : simpl never.

Section WithProps.

Variable member : Member.
Variable provider : Provider.
Variable origin : string.

Lemma guards_pass st :
  newEmail st <> "" -> newEmail st <> email member ->
  test emailRegex (newEmail st) = true ->
  negb (truthy (newEmail st)) || String.eqb (newEmail st) (email member) = false
  /\ negb (test emailRegex (newEmail st)) = false.
Proof.
  intros H1 H2 H3. rewrite H3. split; [ | reflexivity ].
  apply truthy_nonempty in H1. apply String.eqb_neq in H2.
  rewrite H1, H2. reflexivity.
Qed.

(** *** The inner [try] of the temporary path *)

Lemma updateTemporaryEmail_failure ne st e :
  db_failure (db_members_update provider (id member) ne) = Some e ->
  updateTemporaryEmail member provider origin ne st =
  (Throw (Error "Failed to update email in database"), st,
   [db_members_update_ev (id member) ne;
    console_error_ev "❌ Database update failed:"]).
Proof.
  unfold updateTemporaryEmail, try_catch, await, bind.
  destruct (db_members_update provider (id member) ne) as [[m [e' | ]] | e'];
    simpl; intros H; try discriminate; reflexivity.
Qed.

Lemma updateTemporaryEmail_success ne st m :
  db_members_update provider (id member) ne = Resolved (m, None) ->
  updateTemporaryEmail member provider origin ne st =
  (Ok tt,
   mkState (newEmail st) (emailValidation st) (emailUpdateLoading st)
           (passwordResetLoading st) pending ne,
   [db_members_update_ev (id member) ne;
    console_log_ev "✅ Member email updated in database:";
    supabase_auth_resetPasswordForEmail_ev ne (origin ++ "/reset-password");
    console_log_ev
      (reset_log_text
         (supabase_auth_resetPasswordForEmail provider ne (origin ++ "/reset-password")));
    toast_ev (emailUpdatedToast ne)]
   ++ match m with Some m' => [onMemberUpdate_ev m'] | None => [] end).
Proof.
  intros Hdb.
  unfold updateTemporaryEmail, try_catch, await, bind. rewrite Hdb. simpl.
  destruct (supabase_auth_resetPasswordForEmail provider ne (origin ++ "/reset-password"))
    as [[e' | ] | e'];
    destruct m as [m' | ]; reflexivity.
Qed.

(** Whatever the provider answers, the inner [try] returns or throws the
    one fixed error. *)
Lemma updateTemporaryEmail_outcome ne st :
  outcome_of (updateTemporaryEmail member provider origin ne st) = Ok tt
  \/ outcome_of (updateTemporaryEmail member provider origin ne st)
     = Throw (Error "Failed to update email in database").
Proof.
  destruct (db_members_update provider (id member) ne) as [[m [e | ]] | e] eqn:Hdb.
  - right. rewrite (@updateTemporaryEmail_failure ne st e); [ reflexivity | ].
    rewrite Hdb. reflexivity.
  - left. rewrite (@updateTemporaryEmail_success ne st m Hdb). reflexivity.
  - right. rewrite (@updateTemporaryEmail_failure ne st e); [ reflexivity | ].
    rewrite Hdb. reflexivity.
Qed.

(** *** The texts the [catch] block chooses *)

Lemma emailUpdateErrorMessage_database :
  isTemporaryEmail (email member) = true ->
  emailUpdateErrorMessage member (Error "Failed to update email in database")
  = "Database update failed. Please contact support.".
Proof. intros Ht. unfold emailUpdateErrorMessage. rewrite Ht. reflexivity. Qed.

(** *** Whole runs of [handleEmailUpdate] *)

Lemma handleEmailUpdate_empty_or_same st :
  newEmail st = "" \/ newEmail st = email member ->
  handleEmailUpdate member provider origin st =
  (Ok tt, st,
   [toast_ev (mkToast "Error" "Please enter a new email address" destructive)]).
Proof.
  intros H. unfold handleEmailUpdate, bind, get.
  assert (G : negb (truthy (newEmail st))
              || String.eqb (newEmail st) (email member) = true).
  { destruct H as [H | H]; rewrite H.
    - reflexivity.
    - rewrite String.eqb_refl. apply orb_true_r. }
  rewrite G. reflexivity.
Qed.

Lemma handleEmailUpdate_bad_format st :
  newEmail st <> "" -> newEmail st <> email member ->
  test emailRegex (newEmail st) = false ->
  handleEmailUpdate member provider origin st =
  (Ok tt, st,
   [toast_ev (mkToast "Error" "Please enter a valid email address" destructive)]).
Proof.
  intros H1 H2 H3. unfold handleEmailUpdate, bind, get.
  apply truthy_nonempty in H1. apply String.eqb_neq in H2.
  rewrite H1, H2, H3. reflexivity.
Qed.

Lemma handleEmailUpdate_temp_db_failure st e :
  newEmail st <> "" -> newEmail st <> email member ->
  test emailRegex (newEmail st) = true ->
  isTemporaryEmail (email member) = true ->
  db_failure (db_members_update provider (id member) (newEmail st)) = Some e ->
  handleEmailUpdate member provider origin st =
  (Ok tt, failed st,
   [console_log_ev "🔄 Handling temporary email update...";
    console_log_ev "📧 Extracted member ID from temp email:";
    db_members_update_ev (id member) (newEmail st);
    console_error_ev "❌ Database update failed:";
    console_error_ev "Email update error:";
    toast_ev (mkToast "Error" "Database update failed. Please contact support."
                      destructive)]).
Proof.
  intros H1 H2 H3 Ht Hdb.
  destruct (@guards_pass st H1 H2 H3) as [G1 G2].
  destruct (@extract_of_temporary _ Ht) as (d & Hx & Hd).
  unfold handleEmailUpdate, handleEmailUpdate_try, handleEmailUpdate_catch.
  unfold try_finally, try_catch, bind, get.
  rewrite G1, G2, Ht, Hx, Hd. simpl.
  rewrite (updateTemporaryEmail_failure _ _ Hdb). simpl.
  rewrite (emailUpdateErrorMessage_database Ht). reflexivity.
Qed.

Lemma handleEmailUpdate_temp_db_success st m :
  newEmail st <> "" -> newEmail st <> email member ->
  test emailRegex (newEmail st) = true ->
  isTemporaryEmail (email member) = true ->
  db_members_update provider (id member) (newEmail st) = Resolved (m, None) ->
  handleEmailUpdate member provider origin st =
  (Ok tt, succeeded st (newEmail st),
   [console_log_ev "🔄 Handling temporary email update...";
    console_log_ev "📧 Extracted member ID from temp email:";
    db_members_update_ev (id member) (newEmail st);
    console_log_ev "✅ Member email updated in database:";
    supabase_auth_resetPasswordForEmail_ev (newEmail st) (origin ++ "/reset-password");
    console_log_ev
      (reset_log_text
         (supabase_auth_resetPasswordForEmail provider (newEmail st)
            (origin ++ "/reset-password")));
    toast_ev (emailUpdatedToast (newEmail st))]
   ++ match m with Some m' => [onMemberUpdate_ev m'] | None => [] end).
Proof.
  intros H1 H2 H3 Ht Hdb.
  destruct (@guards_pass st H1 H2 H3) as [G1 G2].
  destruct (@extract_of_temporary _ Ht) as (d & Hx & Hd).
  unfold handleEmailUpdate, handleEmailUpdate_try, handleEmailUpdate_catch.
  unfold try_finally, try_catch, bind, get.
  rewrite G1, G2, Ht, Hx, Hd. simpl.
  rewrite (updateTemporaryEmail_success _ _ Hdb). simpl.
  rewrite !app_nil_r. reflexivity.
Qed.

Lemma handleEmailUpdate_regular_success st :
  newEmail st <> "" -> newEmail st <> email member ->
  test emailRegex (newEmail st) = true ->
  isTemporaryEmail (email member) = false ->
  auth_updateEmail provider (newEmail st) = Resolved None ->
  handleEmailUpdate member provider origin st =
  (Ok tt, succeeded st (updatedEmail st),
   [console_log_ev "🔄 Handling regular email update...";
    auth_updateEmail_ev (newEmail st);
    toast_ev (verificationSentToast (newEmail st))]).
Proof.
  intros H1 H2 H3 Ht Ha.
  destruct (@guards_pass st H1 H2 H3) as [G1 G2].
  unfold handleEmailUpdate, handleEmailUpdate_try, handleEmailUpdate_catch.
  unfold try_finally, try_catch, await, bind, get.
  rewrite G1, G2, Ht, Ha. reflexivity.
Qed.

Lemma handleEmailUpdate_regular_failure st e :
  newEmail st <> "" -> newEmail st <> email member ->
  test emailRegex (newEmail st) = true ->
  isTemporaryEmail (email member) = false ->
  auth_failure (auth_updateEmail provider (newEmail st)) = Some e ->
  handleEmailUpdate member provider origin st =
  (Ok tt, failed st,
   [console_log_ev "🔄 Handling regular email update...";
    auth_updateEmail_ev (newEmail st);
    console_error_ev "Email update error:";
    toast_ev (mkToast "Error" (emailUpdateErrorMessage member e) destructive)]).
Proof.
  intros H1 H2 H3 Ht Ha.
  destruct (@guards_pass st H1 H2 H3) as [G1 G2].
  unfold handleEmailUpdate, handleEmailUpdate_try, handleEmailUpdate_catch.
  unfold try_finally, try_catch, await, bind, get.
  rewrite G1, G2, Ht.
  destruct (auth_updateEmail provider (newEmail st)) as [[e' | ] | e'];
    simpl in Ha; try discriminate; injection Ha as ->; reflexivity.
Qed.

(** *** The [try] block on the temporary path *)

(** For a temporary address the [try] block is the two log lines, the inner
    [try], and the clearing of the input: the [throw] guarded by
    [!tempMemberId] is never taken. *)
Lemma handleEmailUpdate_try_temporary ne st :
  isTemporaryEmail (email member) = true ->
  handleEmailUpdate_try member provider origin ne st =
  ((console_log "🔄 Handling temporary email update..." ;;
    console_log "📧 Extracted member ID from temp email:" ;;
    updateTemporaryEmail member provider origin ne) ;;
   setNewEmail "" ;;
   setEmailValidation None) st.
Proof.
  intros Ht. destruct (@extract_of_temporary _ Ht) as (d & Hx & Hd).
  unfold handleEmailUpdate_try, bind. rewrite Ht, Hx, Hd. reflexivity.
Qed.

Lemma handleEmailUpdate_try_temporary_outcome ne st :
  isTemporaryEmail (email member) = true ->
  outcome_of (handleEmailUpdate_try member provider origin ne st) = Ok tt
  \/ outcome_of (handleEmailUpdate_try member provider origin ne st)
     = Throw (Error "Failed to update email in database").
Proof.
  intros Ht. rewrite (handleEmailUpdate_try_temporary ne st Ht).
  pose proof (updateTemporaryEmail_outcome ne st) as H.
  unfold outcome_of, bind in *. simpl.
  destruct (updateTemporaryEmail member provider origin ne st)
    as [[[[] | e] st1] tr1]; simpl in *; [ left; reflexivity | ].
  destruct H as [H | H]; [ discriminate | right; assumption ].
Qed.

(** *** The [catch] blocks against the spec's tables *)

Lemma spec_verbatim_or_truthy dflt e :
  match Err.message e with
  | Some m => if truthy m then m else dflt
  | None => dflt
  end = spec_verbatim_or dflt e.
Proof.
  unfold spec_verbatim_or. destruct (Err.message e) as [[ | c m] | ]; reflexivity.
Qed.

Lemma emailUpdateErrorMessage_temporary e :
  isTemporaryEmail (email member) = true ->
  emailUpdateErrorMessage member e =
  spec_classify spec_temporary_rules
    (fun _ => "Failed to update temporary email. Please contact support if the issue persists.")
    e.
Proof.
  intros Ht. unfold emailUpdateErrorMessage, spec_classify, spec_temporary_rules.
  rewrite Ht. simpl.
  destruct (message_includes e "extract member ID"); simpl; [ reflexivity | ].
  destruct (message_includes e "database"); simpl; [ reflexivity | ].
  destruct (message_includes e "already exists"); simpl; [ reflexivity | ].
  destruct (message_includes e "taken"); reflexivity.
Qed.

Lemma emailUpdateErrorMessage_regular e :
  isTemporaryEmail (email member) = false ->
  emailUpdateErrorMessage member e =
  spec_classify spec_regular_rules
    (spec_verbatim_or "Failed to update email. Please try again.") e.
Proof.
  intros Ht. unfold emailUpdateErrorMessage, spec_classify, spec_regular_rules.
  rewrite Ht, spec_verbatim_or_truthy. simpl.
  destruct (message_includes e "invalid"); simpl; [ reflexivity | ].
  destruct (message_includes e "already exists"); simpl; [ reflexivity | ].
  destruct (message_includes e "taken"); simpl; [ reflexivity | ].
  destruct (message_includes e "rate limit"); simpl; [ reflexivity | ].
  destruct (message_includes e "network"); simpl; [ reflexivity | ].
  destruct (message_includes e "connection"); reflexivity.
Qed.

Lemma passwordResetErrorMessage_spec e :
  passwordResetErrorMessage e =
  spec_classify spec_password_rules
    (spec_verbatim_or "Failed to send password reset email. Please try again.") e.
Proof.
  unfold passwordResetErrorMessage, spec_classify, spec_password_rules.
  rewrite spec_verbatim_or_truthy. simpl.
  destruct (message_includes e "rate limit"); simpl; [ reflexivity | ].
  destruct (message_includes e "not found"); simpl; [ reflexivity | ].
  destruct (message_includes e "invalid"); reflexivity.
Qed.

Lemma handleEmailUpdate_catch_run e st :
  handleEmailUpdate_catch member e st =
  (Ok tt,
   mkState (newEmail st) (emailValidation st) (emailUpdateLoading st)
           (passwordResetLoading st) error (updatedEmail st),
   [console_error_ev "Email update error:";
    toast_ev (mkToast "Error" (emailUpdateErrorMessage member e) destructive)]).
Proof. reflexivity. Qed.

(** *** Whole runs of [handlePasswordReset] *)

Lemma handlePasswordReset_no_email st :
  email member = "" ->
  handlePasswordReset member provider st =
  (Ok tt, st,
   [toast_ev (mkToast "Error" "No email address found for your account" destructive)]).
Proof. intros H. unfold handlePasswordReset. rewrite H. reflexivity. Qed.

Lemma handlePasswordReset_run st :
  email member <> "" ->
  handlePasswordReset member provider st =
  (Ok tt,
   mkState (newEmail st) (emailValidation st) (emailUpdateLoading st) false
           (emailUpdateStatus st) (updatedEmail st),
   auth_resetPassword_ev (email member)
   :: match auth_failure (auth_resetPassword provider (email member)) with
      | None =>
          [toast_ev
             (mkToast "Password Reset Email Sent"
                ("A password reset email has been sent to " ++ email member ++
                 ". Please check your inbox and follow the instructions to reset your password.")%string
                default)]
      | Some e =>
          [console_error_ev "Password reset error:";
           toast_ev (mkToast "Error" (passwordResetErrorMessage e) destructive)]
      end).
Proof.
  intros H. apply truthy_nonempty in H.
  unfold handlePasswordReset, try_finally, try_catch, await, bind. rewrite H.
  destruct (auth_resetPassword provider (email member)) as [[e | ] | e];
    reflexivity.
Qed.

End WithProps.

End Runs.

(* ================================================================== *)
(** ** The e-mail update flow *)

Module EmailUpdate.

Import JsString Regex RegexFacts MemberSettings TemporaryEmail Runs.
Local Open Scope handler_scope.

#[local] Arguments isTemporaryEmail : simpl never.
#[local] Arguments extractMemberIdFromTempEmail : simpl never.
#[local] Arguments test : simpl never.
#[local] Arguments includes : simpl never.
#[local] Arguments String.append : simpl never.
#[local] Arguments emailUpdateErrorMessage : simpl never.
#[local] Arguments updateTemporaryEmail : simpl never.

(** C7. [handleEmailUpdate] validates the input before any provider call:
    when the new e-mail is empty or equal to the member's, or fails the
    format pattern, it shows one destructive error toast ("Please enter a
    new email address" in the first case, "Please enter a valid email
    address" in the second), calls neither [db.members.update] nor
    [auth.updateEmail] nor [resetPasswordForEmail], and leaves the state,
    so [emailUpdateStatus] and [newEmail], as it was. *)
Theorem handleEmailUpdate_validates_first
    (member : Member) (provider : Provider) (origin : string) (st : State) :
  newEmail st = "" \/ newEmail st = email member
  \/ test emailRegex (newEmail st) = false ->
  let r := handleEmailUpdate member provider origin st in
  outcome_of r = Ok tt
  /\ state_of r = st
  /\ provider_calls (trace_of r) = []
  /\ (newEmail st = "" \/ newEmail st = email member ->
      trace_of r =
      [toast_ev (mkToast "Error" "Please enter a new email address" destructive)])
  /\ (newEmail st <> "" -> newEmail st <> email member ->
      trace_of r =
      [toast_ev (mkToast "Error" "Please enter a valid email address" destructive)]).
Proof.
  intros H r.
  assert (Hcases :
    (newEmail st = "" \/ newEmail st = email member)
    \/ (newEmail st <> "" /\ newEmail st <> email member
        /\ test emailRegex (newEmail st) = false)).
  { destruct (String.eqb_spec (newEmail st) "") as [E1 | N1]; [ auto | ].
    destruct (String.eqb_spec (newEmail st) (email member)) as [E2 | N2]; [ auto | ].
    right. destruct H as [H | [H | H]]; [ contradiction | contradiction | auto ]. }
  destruct Hcases as [Hs | (N1 & N2 & Hf)]; subst r.
  - rewrite (@handleEmailUpdate_empty_or_same member provider origin st Hs).
    repeat split.
    intros N1 N2. destruct Hs; contradiction.
  - rewrite (@handleEmailUpdate_bad_format member provider origin st N1 N2 Hf).
    repeat split.
    intros [E | E]; contradiction.
Qed.

Lemma handleEmailUpdate_validates_first_witness :
  let r := handleEmailUpdate regularMember obligingProvider "https://fitgym.example"
             (typing "not-an-address") in
  outcome_of r = Ok tt
  /\ state_of r = typing "not-an-address"
  /\ provider_calls (trace_of r) = []
  /\ (newEmail (typing "not-an-address") = ""
      \/ newEmail (typing "not-an-address") = email regularMember ->
      trace_of r =
      [toast_ev (mkToast "Error" "Please enter a new email address" destructive)])
  /\ (newEmail (typing "not-an-address") <> "" ->
      newEmail (typing "not-an-address") <> email regularMember ->
      trace_of r =
      [toast_ev (mkToast "Error" "Please enter a valid email address" destructive)]).
Proof.
  apply (handleEmailUpdate_validates_first regularMember obligingProvider
           "https://fitgym.example" (typing "not-an-address")).
  right. right. reflexivity.
Defined.

(** C1. For a member whose current e-mail is temporary and a new e-mail
    that is non-empty, different and well-formed, [handleEmailUpdate]
    takes the alternate path: it calls [db.members.update(member.id,
    {email: newEmail})], once, and never [auth.updateEmail]; for a member
    whose current e-mail is not temporary it calls
    [auth.updateEmail(newEmail)], once, and never [db.members.update]. *)
Theorem handleEmailUpdate_path
    (member : Member) (provider : Provider) (origin : string) (st : State) :
  newEmail st <> "" ->
  newEmail st <> email member ->
  test emailRegex (newEmail st) = true ->
  let tr := trace_of (handleEmailUpdate member provider origin st) in
  (isTemporaryEmail (email member) = true ->
   db_members_update_calls tr = [(id member, newEmail st)]
   /\ auth_updateEmail_calls tr = [])
  /\ (isTemporaryEmail (email member) = false ->
      auth_updateEmail_calls tr = [newEmail st]
      /\ db_members_update_calls tr = []).
Proof.
  intros H1 H2 H3 tr. subst tr. split; intros Ht.
  - destruct (db_members_update provider (id member) (newEmail st))
      as [[m [e | ]] | e] eqn:Hdb.
    + assert (Hf : db_failure (db_members_update provider (id member) (newEmail st))
                   = Some e) by (rewrite Hdb; reflexivity).
      rewrite (@handleEmailUpdate_temp_db_failure member provider origin st e
                 H1 H2 H3 Ht Hf).
      split; reflexivity.
    + rewrite (@handleEmailUpdate_temp_db_success member provider origin st m
                 H1 H2 H3 Ht Hdb).
      destruct m; split; reflexivity.
    + assert (Hf : db_failure (db_members_update provider (id member) (newEmail st))
                   = Some e) by (rewrite Hdb; reflexivity).
      rewrite (@handleEmailUpdate_temp_db_failure member provider origin st e
                 H1 H2 H3 Ht Hf).
      split; reflexivity.
  - destruct (auth_failure (auth_updateEmail provider (newEmail st)))
      as [e | ] eqn:Ha.
    + rewrite (@handleEmailUpdate_regular_failure member provider origin st e
                 H1 H2 H3 Ht Ha).
      split; reflexivity.
    + assert (Hr : auth_updateEmail provider (newEmail st) = Resolved None).
      { destruct (auth_updateEmail provider (newEmail st)) as [[e | ] | e];
          simpl in Ha; congruence. }
      rewrite (@handleEmailUpdate_regular_success member provider origin st
                 H1 H2 H3 Ht Hr).
      split; reflexivity.
Qed.

Lemma handleEmailUpdate_path_witness :
  let tr := trace_of (handleEmailUpdate temporaryMember obligingProvider
                        "https://fitgym.example" (typing "jane.doe@outlook.com")) in
  (isTemporaryEmail (email temporaryMember) = true ->
   db_members_update_calls tr
   = [(id temporaryMember, newEmail (typing "jane.doe@outlook.com"))]
   /\ auth_updateEmail_calls tr = [])
  /\ (isTemporaryEmail (email temporaryMember) = false ->
      auth_updateEmail_calls tr = [newEmail (typing "jane.doe@outlook.com")]
      /\ db_members_update_calls tr = []).
Proof.
  apply (handleEmailUpdate_path temporaryMember obligingProvider
           "https://fitgym.example" (typing "jane.doe@outlook.com")).
  - simpl. discriminate.
  - simpl. discriminate.
  - vm_compute. reflexivity.
Defined.

Example regular_text_invalid_before_taken :
  emailUpdateErrorMessage regularMember (Error "address taken or invalid")
  = "The email address format is not accepted. Please use a different email address.".
Proof. vm_compute. reflexivity. Qed.

Example regular_text_verbatim :
  emailUpdateErrorMessage regularMember (Error "Email link expired")
  = "Email link expired".
Proof. vm_compute. reflexivity. Qed.

Example regular_text_default :
  emailUpdateErrorMessage regularMember (Error "")
  = "Failed to update email. Please try again."
  /\ emailUpdateErrorMessage regularMember (Err.mk None)
     = "Failed to update email. Please try again.".
Proof. split; vm_compute; reflexivity. Qed.

Example temporary_text_database_before_taken :
  emailUpdateErrorMessage temporaryMember (Error "database: email already exists")
  = "Database update failed. Please contact support.".
Proof. vm_compute. reflexivity. Qed.

Example temporary_text_fallback :
  emailUpdateErrorMessage temporaryMember (Error "Email link expired")
  = "Failed to update temporary email. Please contact support if the issue persists.".
Proof. vm_compute. reflexivity. Qed.

(** C4. For a member whose current e-mail is not temporary, when the call
    to the provider fails with an error, the toast text is chosen by
    substring matching on the error's message in the fixed order of
    [spec_regular_rules] ('invalid'; 'already exists' or 'taken'; 'rate
    limit'; 'network' or 'connection'); when no rule applies a non-empty
    message is shown verbatim, and otherwise the default text "Failed to
    update email. Please try again.". *)
Theorem regular_failure_toast
    (member : Member) (provider : Provider) (origin : string) (st : State)
    (e : Err.t) :
  newEmail st <> "" ->
  newEmail st <> email member ->
  test emailRegex (newEmail st) = true ->
  isTemporaryEmail (email member) = false ->
  auth_failure (auth_updateEmail provider (newEmail st)) = Some e ->
  let r := handleEmailUpdate member provider origin st in
  toasts (trace_of r) =
  [mkToast "Error"
     (spec_classify spec_regular_rules
        (spec_verbatim_or "Failed to update email. Please try again.") e)
     destructive]
  /\ emailUpdateStatus (state_of r) = error.
Proof.
  intros H1 H2 H3 Ht Ha r. subst r.
  rewrite (@handleEmailUpdate_regular_failure member provider origin st e
             H1 H2 H3 Ht Ha).
  rewrite (@emailUpdateErrorMessage_regular member e Ht).
  split; reflexivity.
Qed.

Lemma regular_failure_toast_witness :
  let r := handleEmailUpdate regularMember
             (refusingProvider (Error "User already exists, invalid request"))
             "https://fitgym.example" (typing "jane.doe@outlook.com") in
  toasts (trace_of r) =
  [mkToast "Error"
     (spec_classify spec_regular_rules
        (spec_verbatim_or "Failed to update email. Please try again.")
        (Error "User already exists, invalid request"))
     destructive]
  /\ emailUpdateStatus (state_of r) = error.
Proof.
  apply (regular_failure_toast regularMember
           (refusingProvider (Error "User already exists, invalid request"))
           "https://fitgym.example" (typing "jane.doe@outlook.com")).
  - simpl. discriminate.
  - simpl. discriminate.
  - vm_compute. reflexivity.
  - vm_compute. reflexivity.
  - reflexivity.
Defined.

(** C5. For a member whose current e-mail is temporary, the [catch] block
    chooses the toast text by substring matching on the error's message in
    the fixed order of [spec_temporary_rules] ('extract member ID';
    'database'; 'already exists' or 'taken'), with the fallback "Failed to
    update temporary email. Please contact support if the issue persists.";
    and when the [try] block of [handleEmailUpdate] throws, that toast is
    the one shown. *)
Theorem temporary_failure_toast
    (member : Member) (provider : Provider) (origin : string) (st : State)
    (e : Err.t) :
  newEmail st <> "" ->
  newEmail st <> email member ->
  test emailRegex (newEmail st) = true ->
  isTemporaryEmail (email member) = true ->
  let text :=
    spec_classify spec_temporary_rules
      (fun _ => "Failed to update temporary email. Please contact support if the issue persists.")
      e in
  (forall st',
     handleEmailUpdate_catch member e st' =
     (Ok tt,
      mkState (newEmail st') (emailValidation st') (emailUpdateLoading st')
              (passwordResetLoading st') error (updatedEmail st'),
      [console_error_ev "Email update error:";
       toast_ev (mkToast "Error" text destructive)]))
  /\ (outcome_of (handleEmailUpdate_try member provider origin (newEmail st)
                    (started st)) = Throw e ->
      toasts (trace_of (handleEmailUpdate member provider origin st))
      = [mkToast "Error" text destructive]).
Proof.
  intros H1 H2 H3 Ht text. subst text. split.
  - intros st'. rewrite handleEmailUpdate_catch_run.
    rewrite (@emailUpdateErrorMessage_temporary member e Ht). reflexivity.
  - rewrite (@handleEmailUpdate_try_temporary member provider origin
               (newEmail st) (started st) Ht).
    unfold outcome_of, bind. simpl.
    destruct (db_members_update provider (id member) (newEmail st))
      as [[m [e' | ]] | e'] eqn:Hdb.
    + assert (Hf : db_failure (db_members_update provider (id member) (newEmail st))
                   = Some e') by (rewrite Hdb; reflexivity).
      rewrite (@updateTemporaryEmail_failure member provider origin _ _ e' Hf).
      simpl. intros E. injection E as <-.
      rewrite (@handleEmailUpdate_temp_db_failure member provider origin st e'
                 H1 H2 H3 Ht Hf).
      reflexivity.
    + rewrite (@updateTemporaryEmail_success member provider origin _ _ m Hdb).
      simpl. discriminate.
    + assert (Hf : db_failure (db_members_update provider (id member) (newEmail st))
                   = Some e') by (rewrite Hdb; reflexivity).
      rewrite (@updateTemporaryEmail_failure member provider origin _ _ e' Hf).
      simpl. intros E. injection E as <-.
      rewrite (@handleEmailUpdate_temp_db_failure member provider origin st e'
                 H1 H2 H3 Ht Hf).
      reflexivity.
Qed.

Lemma temporary_failure_toast_witness :
  let text :=
    spec_classify spec_temporary_rules
      (fun _ => "Failed to update temporary email. Please contact support if the issue persists.")
      (Error "Failed to update email in database") in
  (forall st',
     handleEmailUpdate_catch temporaryMember
       (Error "Failed to update email in database") st' =
     (Ok tt,
      mkState (newEmail st') (emailValidation st') (emailUpdateLoading st')
              (passwordResetLoading st') error (updatedEmail st'),
      [console_error_ev "Email update error:";
       toast_ev (mkToast "Error" text destructive)]))
  /\ toasts (trace_of (handleEmailUpdate temporaryMember
                         (refusingProvider (Error "duplicate key: email already exists"))
                         "https://fitgym.example" (typing "jane.doe@outlook.com")))
     = [mkToast "Error" text destructive].
Proof.
  destruct (temporary_failure_toast temporaryMember
              (refusingProvider (Error "duplicate key: email already exists"))
              "https://fitgym.example" (typing "jane.doe@outlook.com")
              (Error "Failed to update email in database"))
    as [Hcatch Hrun].
  - simpl. discriminate.
  - simpl. discriminate.
  - vm_compute. reflexivity.
  - vm_compute. reflexivity.
  - split; [ exact Hcatch | ].
    apply Hrun. vm_compute. reflexivity.
Defined.

(** C8. For every string, [isTemporaryEmail] is true if and only if
    [extractMemberIdFromTempEmail] returns a non-null value, which is the
    digit prefix of the string; so for a member whose e-mail is temporary
    the branch of [handleEmailUpdate] that throws 'Could not extract member
    ID from temporary email' is unreachable: the [try] block runs as if the
    branch were not there, and never throws that error. *)
Theorem extract_branch_unreachable :
  (forall s, isTemporaryEmail s = true <-> extractMemberIdFromTempEmail s <> None)
  /\ (forall s d, extractMemberIdFromTempEmail s = Some d ->
                  all_digits d = true /\ d <> ""
                  /\ s = (d ++ "@gmail.com")%string)
  /\ (forall member provider origin ne st,
        isTemporaryEmail (email member) = true ->
        handleEmailUpdate_try member provider origin ne st =
        ((console_log "🔄 Handling temporary email update..." ;;
          console_log "📧 Extracted member ID from temp email:" ;;
          updateTemporaryEmail member provider origin ne) ;;
         setNewEmail "" ;;
         setEmailValidation None) st
        /\ outcome_of (handleEmailUpdate_try member provider origin ne st)
           <> Throw (Error "Could not extract member ID from temporary email")).
Proof.
  split; [ | split ].
  - intros s. apply extract_iff_temporary.
  - intros s d E.
    apply extractMemberIdFromTempEmail_Some in E as (Hne & Hd & ->). auto.
  - intros member provider origin ne st Ht. split.
    + apply handleEmailUpdate_try_temporary. assumption.
    + destruct (@handleEmailUpdate_try_temporary_outcome member provider origin
                  ne st Ht) as [E | E]; rewrite E; discriminate.
Qed.

Lemma extract_branch_unreachable_witness :
  extractMemberIdFromTempEmail (email temporaryMember) = Some "1042"
  /\ outcome_of (handleEmailUpdate_try temporaryMember obligingProvider
                   "https://fitgym.example" "jane.doe@outlook.com"
                   (started (typing "jane.doe@outlook.com")))
     <> Throw (Error "Could not extract member ID from temporary email").
Proof.
  destruct extract_branch_unreachable as (_ & _ & H).
  split.
  - vm_compute. reflexivity.
  - apply (H temporaryMember obligingProvider "https://fitgym.example"
             "jane.doe@outlook.com" (started (typing "jane.doe@outlook.com"))).
    vm_compute. reflexivity.
Defined.

(** C9. On the temporary path every failure of [db.members.update] is
    caught and re-thrown as 'Failed to update email in database', which
    contains 'database'; so a database failure, a duplicate e-mail
    included, always gives the toast "Database update failed. Please
    contact support.", and no run on this path shows "This email address
    is already in use. Please choose a different email.". *)
Theorem database_failure_hides_duplicate
    (member : Member) (provider : Provider) (origin : string) (st : State) :
  newEmail st <> "" ->
  newEmail st <> email member ->
  test emailRegex (newEmail st) = true ->
  isTemporaryEmail (email member) = true ->
  let r := handleEmailUpdate member provider origin st in
  (forall e,
     db_failure (db_members_update provider (id member) (newEmail st)) = Some e ->
     outcome_of (updateTemporaryEmail member provider origin (newEmail st)
                   (started st))
     = Throw (Error "Failed to update email in database")
     /\ toasts (trace_of r) =
        [mkToast "Error" "Database update failed. Please contact support."
                 destructive])
  /\ message_includes (Error "Failed to update email in database") "database" = true
  /\ (forall t, In t (toasts (trace_of r)) ->
        description t
        <> "This email address is already in use. Please choose a different email.").
Proof.
  intros H1 H2 H3 Ht r. subst r. split; [ | split ].
  - intros e Hf.
    rewrite (@updateTemporaryEmail_failure member provider origin _ _ e Hf).
    rewrite (@handleEmailUpdate_temp_db_failure member provider origin st e
               H1 H2 H3 Ht Hf).
    split; reflexivity.
  - reflexivity.
  - intros t.
    destruct (db_failure (db_members_update provider (id member) (newEmail st)))
      as [e | ] eqn:Hf.
    + rewrite (@handleEmailUpdate_temp_db_failure member provider origin st e
                 H1 H2 H3 Ht Hf).
      simpl. intros [<- | []]. simpl. discriminate.
    + assert (Hdb : exists m, db_members_update provider (id member) (newEmail st)
                              = Resolved (m, None)).
      { destruct (db_members_update provider (id member) (newEmail st))
          as [[m [e | ]] | e]; simpl in Hf; try discriminate. eauto. }
      destruct Hdb as [m Hdb].
      rewrite (@handleEmailUpdate_temp_db_success member provider origin st m
                 H1 H2 H3 Ht Hdb).
      assert (Hy : forall x : string,
                 ("Your email has been updated to " ++ x)%string
                 <> "This email address is already in use. Please choose a different email.").
      { intros x E. vm_compute in E. discriminate. }
      destruct m; simpl; intros [<- | []]; apply Hy.
Qed.

Lemma database_failure_hides_duplicate_witness :
  toasts (trace_of (handleEmailUpdate temporaryMember
                      (refusingProvider (Error "duplicate key: email already exists"))
                      "https://fitgym.example" (typing "jane.doe@outlook.com")))
  = [mkToast "Error" "Database update failed. Please contact support." destructive].
Proof.
  destruct (database_failure_hides_duplicate temporaryMember
              (refusingProvider (Error "duplicate key: email already exists"))
              "https://fitgym.example" (typing "jane.doe@outlook.com"))
    as (H & _ & _).
  - simpl. discriminate.
  - simpl. discriminate.
  - vm_compute. reflexivity.
  - vm_compute. reflexivity.
  - apply (H (Error "duplicate key: email already exists")). reflexivity.
Defined.

(** C10. On the temporary path, once [db.members.update] has succeeded, a
    failure of [supabase.auth.resetPasswordForEmail] (an [error] in its
    answer or a rejection) is only logged: the run ends normally,
    [emailUpdateStatus] is 'pending', and the success toast saying that a
    password setup email "has been sent" to the new address is shown. *)
Theorem reset_failure_is_swallowed
    (member : Member) (provider : Provider) (origin : string) (st : State)
    (m : option Member) (e : Err.t) :
  newEmail st <> "" ->
  newEmail st <> email member ->
  test emailRegex (newEmail st) = true ->
  isTemporaryEmail (email member) = true ->
  db_members_update provider (id member) (newEmail st) = Resolved (m, None) ->
  auth_failure (supabase_auth_resetPasswordForEmail provider (newEmail st)
                  (origin ++ "/reset-password")) = Some e ->
  let r := handleEmailUpdate member provider origin st in
  outcome_of r = Ok tt
  /\ emailUpdateStatus (state_of r) = pending
  /\ updatedEmail (state_of r) = newEmail st
  /\ toasts (trace_of r) =
     [mkToast "Email Updated Successfully"
        ("Your email has been updated to " ++ newEmail st ++
         ". A password setup email has been sent to your new address. Please check your inbox and follow the instructions to complete the setup.")%string
        default]
  /\ exists text,
       (text = "⚠️ Password reset failed:" \/ text = "⚠️ Reset setup failed:")
       /\ trace_of r =
          [console_log_ev "🔄 Handling temporary email update...";
           console_log_ev "📧 Extracted member ID from temp email:";
           db_members_update_ev (id member) (newEmail st);
           console_log_ev "✅ Member email updated in database:";
           supabase_auth_resetPasswordForEmail_ev (newEmail st)
             (origin ++ "/reset-password");
           console_log_ev text;
           toast_ev (emailUpdatedToast (newEmail st))]
          ++ match m with Some m' => [onMemberUpdate_ev m'] | None => [] end.
Proof.
  intros H1 H2 H3 Ht Hdb Hreset r. subst r.
  rewrite (@handleEmailUpdate_temp_db_success member provider origin st m
             H1 H2 H3 Ht Hdb).
  repeat split.
  - destruct m; reflexivity.
  - destruct (supabase_auth_resetPasswordForEmail provider (newEmail st)
                (origin ++ "/reset-password")) as [[e' | ] | e'];
      simpl in Hreset; try discriminate.
    + exists "⚠️ Password reset failed:". split; [ left | ]; reflexivity.
    + exists "⚠️ Reset setup failed:". split; [ right | ]; reflexivity.
Qed.

Lemma reset_failure_is_swallowed_witness :
  let r := handleEmailUpdate temporaryMember
             (noMailProvider (Error "SMTP connection refused"))
             "https://fitgym.example" (typing "jane.doe@outlook.com") in
  outcome_of r = Ok tt
  /\ emailUpdateStatus (state_of r) = pending
  /\ trace_of r =
     [console_log_ev "🔄 Handling temporary email update...";
      console_log_ev "📧 Extracted member ID from temp email:";
      db_members_update_ev "6f1c2a9e-17" "jane.doe@outlook.com";
      console_log_ev "✅ Member email updated in database:";
      supabase_auth_resetPasswordForEmail_ev "jane.doe@outlook.com"
        "https://fitgym.example/reset-password";
      console_log_ev "⚠️ Reset setup failed:";
      toast_ev (emailUpdatedToast "jane.doe@outlook.com")].
Proof.
  destruct (@reset_failure_is_swallowed temporaryMember
              (noMailProvider (Error "SMTP connection refused"))
              "https://fitgym.example" (typing "jane.doe@outlook.com")
              None (Error "SMTP connection refused"))
    as (Hok & Hpending & _).
  - simpl. discriminate.
  - simpl. discriminate.
  - vm_compute. reflexivity.
  - vm_compute. reflexivity.
  - reflexivity.
  - reflexivity.
  - split; [ exact Hok | split; [ exact Hpending | ] ].
    vm_compute. reflexivity.
Defined.

End EmailUpdate.

(* ================================================================== *)
(** ** Live validation and the update button *)

Module Validation.

Import JsString Regex MemberSettings.

Lemma validateEmailFormat_test_at_test :
  validateEmailFormat "test@test.com" =
  setEmailValidation
    (Some (mkValidation false "Please use your real email address")).
Proof. vm_compute. reflexivity. Qed.

Example emailRegex_accepts_plain :
  test emailRegex "sarah2024@outlook.com" = true.
Proof. vm_compute. reflexivity. Qed.

Example emailRegex_needs_two_letters :
  test emailRegex "sarah@outlook.c" = false.
Proof. vm_compute. reflexivity. Qed.

Example emailRegex_rejects_space :
  test emailRegex "sarah smith@outlook.com" = false.
Proof. vm_compute. reflexivity. Qed.

Example validateEmailFormat_lowers_case :
  emailValidation (state_of (validateEmailFormat "Jane@Example.org" initialState))
  = Some (mkValidation false "Please use a real domain").
Proof. vm_compute. reflexivity. Qed.

Example validateEmailFormat_accepts :
  emailValidation (state_of (validateEmailFormat "jane.doe@outlook.com" initialState))
  = Some (mkValidation true "Valid email format").
Proof. vm_compute. reflexivity. Qed.

(** While [emailValidation.isValid] is false the button is disabled and a
    click does nothing. *)
Lemma click_while_invalid member provider origin st v :
  emailValidation st = Some v -> isValid v = false ->
  updateButtonDisabled st = true
  /\ clickUpdateButton member provider origin st = (Ok tt, st, []).
Proof.
  intros Hv Hf.
  assert (D : updateButtonDisabled st = true).
  { unfold updateButtonDisabled. rewrite Hv, Hf. apply orb_true_r. }
  split; [ exact D | ].
  unfold clickUpdateButton, bind, get. rewrite D. reflexivity.
Qed.

(** C2. Entering the new e-mail "test@test.com" is rejected:
    [validateEmailFormat] sets [emailValidation] to [{isValid: false,
    message: "Please use your real email address"}], the first invalid
    pattern that matches being [/^test@/]; while [emailValidation.isValid]
    is false the update button is disabled, so a click issues no call at
    all; the format pattern of [handleEmailUpdate] alone accepts
    "test@test.com". *)
Theorem test_at_test_rejected
    (member : Member) (provider : Provider) (origin : string) (st : State) :
  let r := handleEmailChange "test@test.com" st in
  newEmail (state_of r) = "test@test.com"
  /\ emailValidation (state_of r)
     = Some (mkValidation false "Please use your real email address")
  /\ find (fun pm => test (fst pm) (toLowerCase "test@test.com")) invalidPatterns
     = Some (Pattern true (Lit "test@") false, "Please use your real email address")
  /\ updateButtonDisabled (state_of r) = true
  /\ clickUpdateButton member provider origin (state_of r)
     = (Ok tt, state_of r, [])
  /\ (forall st' v,
        emailValidation st' = Some v -> isValid v = false ->
        updateButtonDisabled st' = true
        /\ clickUpdateButton member provider origin st' = (Ok tt, st', []))
  /\ test emailRegex "test@test.com" = true.
Proof.
  intros r.
  assert (Hn : newEmail (state_of r) = "test@test.com"
               /\ emailValidation (state_of r)
                  = Some (mkValidation false "Please use your real email address")).
  { subst r. unfold handleEmailChange, bind, get.
    rewrite validateEmailFormat_test_at_test.
    destruct (emailUpdateStatus st); split; reflexivity. }
  destruct Hn as [Hn Hv].
  destruct (@click_while_invalid member provider origin (state_of r) _ Hv eq_refl)
    as [Hd Hc].
  repeat split; try assumption.
  - apply (@click_while_invalid member provider origin st' v); assumption.
  - apply (@click_while_invalid member provider origin st' v); assumption.
Qed.

Lemma test_at_test_rejected_witness :
  let st := state_of (handleEmailChange "test@test.com" initialState) in
  st = mkState "test@test.com"
         (Some (mkValidation false "Please use your real email address"))
         false false idle ""
  /\ clickUpdateButton regularMember obligingProvider "https://fitgym.example" st
     = (Ok tt, st, [])
  /\ provider_calls
       (trace_of (handleEmailUpdate regularMember obligingProvider
                    "https://fitgym.example" st))
     = [auth_updateEmail_ev "test@test.com"].
Proof.
  destruct (test_at_test_rejected regularMember obligingProvider
              "https://fitgym.example" initialState)
    as (_ & _ & _ & _ & Hclick & _ & _).
  split; [ vm_compute; reflexivity | ].
  split; [ exact Hclick | vm_compute; reflexivity ].
Defined.

End Validation.

(* ================================================================== *)
(** ** The password reset *)

Module PasswordReset.

Import JsString Regex MemberSettings TemporaryEmail Runs.

(** C6. [handlePasswordReset] calls [auth.resetPassword(member.email)]
    exactly when [member.email] is non-empty; when it is empty it shows the
    destructive toast "No email address found for your account" and makes
    no provider call; on a provider error the toast text is chosen by
    substring matching in the order of [spec_password_rules] ('rate limit';
    'not found' or 'invalid'), then a non-empty message verbatim, then the
    default "Failed to send password reset email. Please try again.". *)
Theorem handlePasswordReset_behaviour
    (member : Member) (provider : Provider) (st : State) :
  let r := handlePasswordReset member provider st in
  (provider_calls (trace_of r) = [auth_resetPassword_ev (email member)]
   <-> email member <> "")
  /\ (email member = "" ->
      provider_calls (trace_of r) = []
      /\ trace_of r =
         [toast_ev (mkToast "Error" "No email address found for your account"
                            destructive)])
  /\ (forall e,
        email member <> "" ->
        auth_failure (auth_resetPassword provider (email member)) = Some e ->
        toasts (trace_of r) =
        [mkToast "Error"
           (spec_classify spec_password_rules
              (spec_verbatim_or
                 "Failed to send password reset email. Please try again.") e)
           destructive]).
Proof.
  intros r. subst r. split; [ | split ].
  - destruct (String.eqb_spec (email member) "") as [E | N].
    + rewrite (@handlePasswordReset_no_email member provider st E).
      split; [ discriminate | contradiction ].
    + rewrite (@handlePasswordReset_run member provider st N).
      split; [ intros _; exact N | intros _ ].
      destruct (auth_failure (auth_resetPassword provider (email member)));
        reflexivity.
  - intros E. rewrite (@handlePasswordReset_no_email member provider st E).
    split; reflexivity.
  - intros e N Hf. rewrite (@handlePasswordReset_run member provider st N), Hf.
    rewrite passwordResetErrorMessage_spec. reflexivity.
Qed.

Lemma handlePasswordReset_behaviour_witness :
  provider_calls (trace_of (handlePasswordReset noEmailMember obligingProvider
                              initialState)) = []
  /\ toasts (trace_of (handlePasswordReset regularMember
                         (refusingProvider (Error "User not found"))
                         initialState))
     = [mkToast "Error" "Email address not found. Please contact support."
                destructive].
Proof.
  split.
  - destruct (handlePasswordReset_behaviour noEmailMember obligingProvider
                initialState) as (_ & H & _).
    apply H. reflexivity.
  - destruct (handlePasswordReset_behaviour regularMember
                (refusingProvider (Error "User not found")) initialState)
      as (_ & _ & H).
    apply (H (Error "User not found")).
    + simpl. discriminate.
    + reflexivity.
Defined.

End PasswordReset.

(* ================================================================== *)
(** ** What the component's patterns accept *)

Module PatternFacts.

Import JsString Regex RegexFacts MemberSettings SettingsView TemporaryEmail.

Lemma list_ascii_of_string_inj (a b : string) :
  list_ascii_of_string a = list_ascii_of_string b -> a = b.
Proof.
  intros E. rewrite <- (string_of_list_ascii_of_string a), E.
  apply string_of_list_ascii_of_string.
Qed.

Lemma length_string_of_list_ascii (l : list ascii) :
  String.length (string_of_list_ascii l) = List.length l.
Proof. induction l as [ | c l IH ]; simpl; [ | rewrite IH ]; reflexivity. Qed.

Lemma length_list_ascii_of_string (s : string) :
  List.length (list_ascii_of_string s) = String.length s.
Proof. induction s as [ | c s IH ]; simpl; [ | rewrite IH ]; reflexivity. Qed.

(** [String.prefix] and [includes], by concatenation. *)
Lemma prefix_app (p : string) : forall s,
  String.prefix p s = true <-> exists r, s = (p ++ r)%string.
Proof.
  induction p as [ | a p IH ]; intros s; simpl.
  - destruct s; split; eauto.
  - destruct s as [ | b s ]; simpl.
    + split; [ discriminate | intros [r E]; discriminate ].
    + destruct (ascii_dec a b) as [ <- | N ].
      * rewrite IH. split; intros [r E]; exists r; congruence.
      * split; [ discriminate | intros [r E]; congruence ].
Qed.

Lemma includes_unfold (s sub : string) :
  includes s sub =
  if String.prefix sub s then true
  else match s with
       | EmptyString => false
       | String _ s' => includes s' sub
       end.
Proof. destruct s; reflexivity. Qed.

Lemma includes_app (sub : string) : forall s,
  includes s sub = true <-> exists a b, s = (a ++ sub ++ b)%string.
Proof.
  intros s. split.
  - induction s as [ | c s IH ]; rewrite includes_unfold;
      destruct (String.prefix sub _) eqn:P.
    + intros _. apply prefix_app in P as [r E]. exists "", r. exact E.
    + discriminate.
    + intros _. apply prefix_app in P as [r E]. exists "", r. exact E.
    + intros H. apply IH in H as (a & b & ->). exists (String c a), b. reflexivity.
  - intros (a & b & ->). induction a as [ | c a IH ]; rewrite includes_unfold.
    + assert (P : String.prefix sub ("" ++ sub ++ b) = true)
        by (apply prefix_app; exists b; reflexivity).
      rewrite P. reflexivity.
    + destruct (String.prefix sub _); [ reflexivity | exact IH ].
Qed.

Lemma Lang_any (w : list ascii) : Lang (Star (Class any)) w.
Proof.
  apply Lang_Star_Class. induction w as [ | c w IH ]; simpl; auto.
Qed.

Lemma Lang_Chr (c : ascii) (w : list ascii) : Lang (Chr c) w <-> w = [c].
Proof.
  unfold Chr. split.
  - intros H. apply Lang_Class_inv in H as (a & -> & Ha).
    apply Ascii.eqb_eq in Ha as ->. reflexivity.
  - intros ->. constructor. apply Ascii.eqb_refl.
Qed.

Lemma Lang_AtLeast_Class (p : ascii -> bool) (n : nat) : forall w,
  Lang (AtLeast n (Class p)) w <-> n <= List.length w /\ forallb p w = true.
Proof.
  induction n as [ | n IH ]; intros w; simpl.
  - rewrite Lang_Star_Class. split; [ intros H; split; [ lia | exact H ] | tauto ].
  - split.
    + intros H. apply Lang_Cat_inv in H as (s1 & s2 & -> & H1 & H2).
      apply Lang_Class_inv in H1 as (a & -> & Ha).
      apply IH in H2 as [Hn Hp]. simpl. rewrite Ha, Hp. split; [ lia | reflexivity ].
    + intros [Hn Hp]. destruct w as [ | a w ]; simpl in *; [ lia | ].
      apply andb_true_iff in Hp as [Ha Hp].
      change (a :: w) with ([a] ++ w).
      apply LCat; [ constructor; assumption | apply IH; split; [ lia | assumption ] ].
Qed.

(** A literal anchored at the start is a prefix test; a literal without
    anchors is a substring test. *)
Lemma test_starts_with (p s : string) :
  test (Pattern true (Lit p) false) s = String.prefix p s.
Proof.
  apply eq_true_iff_eq. unfold test, Lit; simpl.
  rewrite matches_Lang, prefix_app. split.
  - intros H. apply Lang_Cat_inv in H as (s1 & s2 & E & H1 & H2).
    apply Lang_Eps_inv in H1 as ->.
    apply Lang_Cat_inv in H2 as (s3 & s4 & -> & H3 & _).
    apply Lang_Lit in H3 as ->. simpl in E.
    exists (string_of_list_ascii s4). apply list_ascii_of_string_inj.
    rewrite list_ascii_of_string_app, list_ascii_of_string_of_list_ascii.
    exact E.
  - intros [r ->]. rewrite list_ascii_of_string_app.
    change (list_ascii_of_string p ++ list_ascii_of_string r)
      with ([] ++ (list_ascii_of_string p ++ list_ascii_of_string r)).
    apply LCat; [ constructor | ].
    apply LCat; [ apply Lang_Lit; reflexivity | apply Lang_any ].
Qed.

Lemma test_contains (p s : string) :
  test (Pattern false (Lit p) false) s = includes s p.
Proof.
  apply eq_true_iff_eq. unfold test, Lit; simpl.
  rewrite matches_Lang, includes_app. split.
  - intros H. apply Lang_Cat_inv in H as (s1 & s2 & E & _ & H2).
    apply Lang_Cat_inv in H2 as (s3 & s4 & -> & H3 & _).
    apply Lang_Lit in H3 as ->.
    exists (string_of_list_ascii s1), (string_of_list_ascii s4).
    apply list_ascii_of_string_inj.
    rewrite !list_ascii_of_string_app, !list_ascii_of_string_of_list_ascii.
    exact E.
  - intros (a & b & ->). rewrite !list_ascii_of_string_app.
    apply LCat; [ apply Lang_any | ].
    apply LCat; [ apply Lang_Lit; reflexivity | apply Lang_any ].
Qed.

Lemma emailRegex_only_well_formed (s : string) :
  test emailRegex s = true -> well_formed_email s.
Proof.
  unfold emailRegex, well_formed_email, all_chars.
  rewrite test_anchored. intros H.
  apply Lang_Cat_inv in H as (l & w1 & E & Hl & H).
  apply Lang_Cat_inv in H as (a & w2 & -> & Ha & H).
  apply Lang_Cat_inv in H as (d & w3 & -> & Hd & H).
  apply Lang_Cat_inv in H as (o & t & -> & Ho & Ht).
  apply Lang_Plus_Class in Hl as [Hl1 Hl2].
  apply Lang_Chr in Ha as ->.
  apply Lang_Plus_Class in Hd as [Hd1 Hd2].
  apply Lang_Chr in Ho as ->.
  apply Lang_AtLeast_Class in Ht as [Ht1 Ht2].
  exists (string_of_list_ascii l), (string_of_list_ascii d),
         (string_of_list_ascii t).
  rewrite !list_ascii_of_string_of_list_ascii, length_string_of_list_ascii.
  repeat split; try assumption.
  - apply list_ascii_of_string_inj.
    rewrite !list_ascii_of_string_app, !list_ascii_of_string_of_list_ascii.
    exact E.
  - intros C. apply Hl1.
    rewrite <- (list_ascii_of_string_of_list_ascii l), C. reflexivity.
  - intros C. apply Hd1.
    rewrite <- (list_ascii_of_string_of_list_ascii d), C. reflexivity.
Qed.

Lemma well_formed_passes_emailRegex (s : string) :
  well_formed_email s -> test emailRegex s = true.
Proof.
  unfold emailRegex, well_formed_email, all_chars.
  rewrite test_anchored.
  intros (l & d & t & -> & Hl1 & Hl2 & Hd1 & Hd2 & Ht1 & Ht2).
  rewrite !list_ascii_of_string_app.
  apply LCat; [ apply Lang_Plus_Class; split;
                [ rewrite list_ascii_of_string_nil | ]; assumption | ].
  apply LCat; [ apply Lang_Chr; reflexivity | ].
  apply LCat; [ apply Lang_Plus_Class; split;
                [ rewrite list_ascii_of_string_nil | ]; assumption | ].
  apply LCat; [ apply Lang_Chr; reflexivity | ].
  apply Lang_AtLeast_Class. rewrite length_list_ascii_of_string. auto.
Qed.

(** X1. The format pattern accepts exactly the well-formed addresses: a
    non-empty local part of letters, digits and [._%+-], "@", a non-empty
    domain of letters, digits and [.-], ".", and at least two letters. *)
Theorem emailRegex_well_formed (s : string) :
  test emailRegex s = true <-> well_formed_email s.
Proof.
  split.
  - apply emailRegex_only_well_formed.
  - apply well_formed_passes_emailRegex.
Qed.

Lemma emailRegex_well_formed_witness :
  test emailRegex "" = false
  /\ well_formed_email "sarah2024@mail.outlook.com".
Proof.
  split.
  - reflexivity.
  - apply (proj1 (emailRegex_well_formed "sarah2024@mail.outlook.com")).
    vm_compute. reflexivity.
Defined.

Lemma forallb_weaken (p q : ascii -> bool) (l : list ascii) :
  (forall c, p c = true -> q c = true) ->
  forallb p l = true -> forallb q l = true.
Proof.
  intros Hpq. induction l as [ | c l IH ]; simpl; [ reflexivity | ].
  rewrite !andb_true_iff. intros [Hc Hl]. auto.
Qed.

Lemma digit_local_part_char (c : ascii) : digit c = true -> local_part_char c = true.
Proof.
  intros H. unfold local_part_char, alnum. rewrite H.
  rewrite orb_true_r. reflexivity.
Qed.

Lemma temporary_is_well_formed (s : string) :
  temporary_email_form s -> well_formed_email s.
Proof.
  intros (d & Hne & Hd & ->). exists d, "gmail", "com".
  repeat split; try assumption; try reflexivity.
  - apply (forallb_weaken digit); [ apply digit_local_part_char | exact Hd ].
  - discriminate.
  - simpl. lia.
Qed.

End PatternFacts.

(* ================================================================== *)
(** ** The verdicts of the live validation *)

Module ValidationFacts.

Import JsString Regex RegexFacts MemberSettings SettingsView TemporaryEmail
       PatternFacts Runs.
Local Open Scope handler_scope.

#[local] Arguments test : simpl never.
#[local] Arguments includes : simpl never.
#[local] Arguments String.prefix : simpl never.
#[local] Arguments toLowerCase : simpl never.

Lemma validateEmailFormat_run (e : string) (st : State) :
  validateEmailFormat e st =
  (Ok tt,
   mkState (newEmail st) (verdict e) (emailUpdateLoading st)
           (passwordResetLoading st) (emailUpdateStatus st) (updatedEmail st),
   []).
Proof.
  unfold verdict, validateEmailFormat.
  destruct (negb (truthy e)); [ reflexivity | ].
  destruct (negb (test emailRegex e)); [ reflexivity | ].
  destruct (find _ invalidPatterns) as [[pat msg] | ]; reflexivity.
Qed.

(** The verdict, with the six patterns read as prefix and substring
    tests. *)
Lemma verdict_cases (e : string) :
  verdict e =
  if negb (truthy e) then None
  else if negb (test emailRegex e) then
    Some (mkValidation false "Invalid email format")
  else if fake_local_part e then
    Some (mkValidation false "Please use your real email address")
  else if fake_domain e then
    Some (mkValidation false "Please use a real domain")
  else Some (mkValidation true "Valid email format").
Proof.
  unfold verdict, validateEmailFormat, fake_local_part, fake_domain.
  destruct (negb (truthy e)); [ reflexivity | ].
  destruct (negb (test emailRegex e)); [ reflexivity | ].
  unfold invalidPatterns. cbn [find fst snd].
  rewrite !test_starts_with, !test_contains.
  destruct (String.prefix "test@" (toLowerCase e)); [ reflexivity | ].
  destruct (String.prefix "fake@" (toLowerCase e)); [ reflexivity | ].
  destruct (String.prefix "temp@" (toLowerCase e)); [ reflexivity | ].
  destruct (includes (toLowerCase e) "@test."); [ reflexivity | ].
  destruct (includes (toLowerCase e) "@fake."); [ reflexivity | ].
  destruct (includes (toLowerCase e) "@example."); reflexivity.
Qed.

Lemma emailRegex_nonempty (e : string) : test emailRegex e = true -> truthy e = true.
Proof. destruct e; [ vm_compute; discriminate | reflexivity ]. Qed.

(** X2. [validateEmailFormat] marks an input valid exactly when it is a
    well-formed address whose lower-cased form neither starts with
    "test@", "fake@" or "temp@" nor contains "@test.", "@fake." or
    "@example."; the message is then "Valid email format". *)
Theorem verdict_valid_iff (e : string) :
  ((exists v, verdict e = Some v /\ isValid v = true)
   <-> well_formed_email e /\ fake_local_part e = false /\ fake_domain e = false)
  /\ (forall v, verdict e = Some v -> isValid v = true ->
                message v = "Valid email format").
Proof.
  assert (W : test emailRegex e = true <-> well_formed_email e)
    by (split; [ apply emailRegex_only_well_formed
               | apply well_formed_passes_emailRegex ]).
  rewrite <- W, verdict_cases. clear W.
  destruct (test emailRegex e) eqn:R.
  - rewrite (emailRegex_nonempty e R). simpl.
    destruct (fake_local_part e); [ | destruct (fake_domain e) ]; simpl.
    + split; [ split | ].
      * intros (v & E & V). injection E as <-. discriminate.
      * intros (_ & C & _). discriminate.
      * intros v E V. injection E as <-. discriminate.
    + split; [ split | ].
      * intros (v & E & V). injection E as <-. discriminate.
      * intros (_ & _ & C). discriminate.
      * intros v E V. injection E as <-. discriminate.
    + split; [ split | ].
      * auto.
      * intros _. eexists. split; reflexivity.
      * intros v E V. injection E as <-. reflexivity.
  - destruct (negb (truthy e)); simpl.
    + split; [ split | ].
      * intros (v & E & _). discriminate.
      * intros (C & _). discriminate.
      * intros v E. discriminate.
    + split; [ split | ].
      * intros (v & E & V). injection E as <-. discriminate.
      * intros (C & _). discriminate.
      * intros v E V. injection E as <-. discriminate.
Qed.

Lemma verdict_valid_iff_witness :
  verdict "sarah2024@outlook.com" = Some (mkValidation true "Valid email format")
  /\ well_formed_email "sarah2024@outlook.com".
Proof.
  destruct (verdict_valid_iff "sarah2024@outlook.com") as [[H _] _].
  split; [ vm_compute; reflexivity | ].
  apply H. eexists. split; [ vm_compute; reflexivity | reflexivity ].
Defined.

(** X3. A well-formed input is rejected with "Please use your real email
    address" when its lower-cased form starts with "test@", "fake@" or
    "temp@", whatever its domain; and with "Please use a real domain" when
    it does not but contains "@test.", "@fake." or "@example.". *)
Theorem verdict_fake (e : string) :
  test emailRegex e = true ->
  (fake_local_part e = true ->
   verdict e = Some (mkValidation false "Please use your real email address"))
  /\ (fake_local_part e = false -> fake_domain e = true ->
      verdict e = Some (mkValidation false "Please use a real domain")).
Proof.
  intros R. rewrite verdict_cases, R, (emailRegex_nonempty e R). simpl.
  split.
  - intros ->. reflexivity.
  - intros -> ->. reflexivity.
Qed.

Lemma verdict_fake_witness :
  verdict "TEST@Example.org"
  = Some (mkValidation false "Please use your real email address")
  /\ verdict "Sarah@Example.org"
     = Some (mkValidation false "Please use a real domain").
Proof.
  split.
  - apply (proj1 (verdict_fake "TEST@Example.org" eq_refl)). reflexivity.
  - apply (proj2 (verdict_fake "Sarah@Example.org" eq_refl)); reflexivity.
Defined.

End ValidationFacts.

(* ================================================================== *)
(** ** Every run of the handlers *)

Module HandlerFacts.

Import JsString Regex RegexFacts MemberSettings SettingsView TemporaryEmail
       PatternFacts Runs.
Local Open Scope handler_scope.

#[local] Arguments isTemporaryEmail : simpl never.
#[local] Arguments test : simpl never.
#[local] Arguments includes : simpl never.
#[local] Arguments String.append : simpl never.
#[local] Arguments emailUpdateErrorMessage : simpl never.
#[local] Arguments passwordResetErrorMessage : simpl never.

Section WithProps.

Variable member : Member.
Variable provider : Provider.
Variable origin : string.

Lemma accepted_dec (st : State) :
  accepted member st
  \/ (newEmail st = "" \/ newEmail st = email member)
  \/ (newEmail st <> "" /\ newEmail st <> email member
      /\ test emailRegex (newEmail st) = false).
Proof.
  unfold accepted.
  destruct (String.eqb_spec (newEmail st) "") as [E1 | N1]; [ auto | ].
  destruct (String.eqb_spec (newEmail st) (email member)) as [E2 | N2]; [ auto | ].
  destruct (test emailRegex (newEmail st)); auto.
Qed.

Lemma db_answer_cases (ne : string) :
  (exists e, db_failure (db_members_update provider (id member) ne) = Some e)
  \/ (exists m, db_members_update provider (id member) ne = Resolved (m, None)).
Proof.
  destruct (db_members_update provider (id member) ne) as [[m [e | ]] | e];
    simpl; eauto.
Qed.

Lemma auth_answer_cases (a : Awaited (option Err.t)) :
  (exists e, auth_failure a = Some e) \/ a = Resolved None.
Proof. destruct a as [[e | ] | e]; simpl; eauto. Qed.

(** The six ways a run of [handleEmailUpdate] can go. *)
Lemma handleEmailUpdate_cases (st : State) :
  let r := handleEmailUpdate member provider origin st in
  ((newEmail st = "" \/ newEmail st = email member)
   /\ r = (Ok tt, st,
           [toast_ev (mkToast "Error" "Please enter a new email address"
                              destructive)]))
  \/ ((newEmail st <> "" /\ newEmail st <> email member
       /\ test emailRegex (newEmail st) = false)
      /\ r = (Ok tt, st,
              [toast_ev (mkToast "Error" "Please enter a valid email address"
                                 destructive)]))
  \/ (accepted member st /\ isTemporaryEmail (email member) = true
      /\ (exists e,
            db_failure (db_members_update provider (id member) (newEmail st))
            = Some e)
      /\ r = (Ok tt, failed st,
              [console_log_ev "🔄 Handling temporary email update...";
               console_log_ev "📧 Extracted member ID from temp email:";
               db_members_update_ev (id member) (newEmail st);
               console_error_ev "❌ Database update failed:";
               console_error_ev "Email update error:";
               toast_ev (mkToast "Error"
                           "Database update failed. Please contact support."
                           destructive)]))
  \/ (accepted member st /\ isTemporaryEmail (email member) = true
      /\ exists m,
           db_members_update provider (id member) (newEmail st)
           = Resolved (m, None)
           /\ r = (Ok tt, succeeded st (newEmail st),
                   [console_log_ev "🔄 Handling temporary email update...";
                    console_log_ev "📧 Extracted member ID from temp email:";
                    db_members_update_ev (id member) (newEmail st);
                    console_log_ev "✅ Member email updated in database:";
                    supabase_auth_resetPasswordForEmail_ev (newEmail st)
                      (origin ++ "/reset-password");
                    console_log_ev
                      (reset_log_text
                         (supabase_auth_resetPasswordForEmail provider
                            (newEmail st) (origin ++ "/reset-password")));
                    toast_ev (emailUpdatedToast (newEmail st))]
                   ++ match m with
                      | Some m' => [onMemberUpdate_ev m']
                      | None => []
                      end))
  \/ (accepted member st /\ isTemporaryEmail (email member) = false
      /\ auth_updateEmail provider (newEmail st) = Resolved None
      /\ r = (Ok tt, succeeded st (updatedEmail st),
              [console_log_ev "🔄 Handling regular email update...";
               auth_updateEmail_ev (newEmail st);
               toast_ev (verificationSentToast (newEmail st))]))
  \/ (accepted member st /\ isTemporaryEmail (email member) = false
      /\ exists e,
           auth_failure (auth_updateEmail provider (newEmail st)) = Some e
           /\ r = (Ok tt, failed st,
                   [console_log_ev "🔄 Handling regular email update...";
                    auth_updateEmail_ev (newEmail st);
                    console_error_ev "Email update error:";
                    toast_ev (mkToast "Error" (emailUpdateErrorMessage member e)
                                      destructive)])).
Proof.
  intros r. subst r.
  destruct (accepted_dec st) as [A | [G | G]].
  - pose proof A as (H1 & H2 & H3).
    destruct (isTemporaryEmail (email member)) eqn:Ht.
    + destruct (db_answer_cases (newEmail st)) as [[e Hf] | [m Hdb]].
      * right; right; left. repeat split; eauto.
        apply (@handleEmailUpdate_temp_db_failure member provider origin st e);
          assumption.
      * right; right; right; left. repeat split; auto. exists m. split; auto.
        apply (@handleEmailUpdate_temp_db_success member provider origin st m);
          assumption.
    + destruct (auth_answer_cases (auth_updateEmail provider (newEmail st)))
        as [[e Hf] | Hr].
      * do 5 right. repeat split; auto. exists e. split; auto.
        apply (@handleEmailUpdate_regular_failure member provider origin st e);
          assumption.
      * do 4 right; left. repeat split; auto.
        apply (@handleEmailUpdate_regular_success member provider origin st);
          assumption.
  - left. split; [ exact G | ].
    apply (@handleEmailUpdate_empty_or_same member provider origin st G).
  - right; left. split; [ exact G | ].
    destruct G as (N1 & N2 & Hf).
    apply (@handleEmailUpdate_bad_format member provider origin st N1 N2 Hf).
Qed.

Lemma accepted_not_rejected (st : State) :
  accepted member st ->
  ~ (newEmail st = "" \/ newEmail st = email member)
  /\ ~ (newEmail st <> "" /\ newEmail st <> email member
        /\ test emailRegex (newEmail st) = false).
Proof.
  intros (H1 & H2 & H3). split.
  - intros [E | E]; contradiction.
  - intros (_ & _ & E). congruence.
Qed.

End WithProps.

Ltac run_cases member provider origin st :=
  let H := fresh "H" in
  pose proof (@handleEmailUpdate_cases member provider origin st) as H;
  cbv zeta in H;
  destruct H as [ (G & E) | [ (G & E) | [ (A & Ht & (e & Hf) & E)
               | [ (A & Ht & m & Hdb & E) | [ (A & Ht & Hr & E)
               | (A & Ht & e & Hf & E) ] ] ] ] ];
  rewrite E.


(** X6. The provider calls of a run of [handleEmailUpdate], in order, are
    none, or [db.members.update] alone, or [db.members.update] then
    [resetPasswordForEmail], or [auth.updateEmail] alone.  The password
    reset mail is requested exactly when the new address passed the
    guards, the current one is temporary and the database update did not
    fail; it goes to the new address with the redirect
    [origin + "/reset-password"]. *)
Theorem handleEmailUpdate_calls
    (member : Member) (provider : Provider) (origin : string) (st : State) :
  let calls := provider_calls (trace_of (handleEmailUpdate member provider origin st)) in
  let update := db_members_update_ev (id member) (newEmail st) in
  let reset := supabase_auth_resetPasswordForEmail_ev (newEmail st)
                 (origin ++ "/reset-password") in
  (calls = [] \/ calls = [update] \/ calls = [update; reset]
   \/ calls = [auth_updateEmail_ev (newEmail st)])
  /\ (calls = [update; reset] <->
      accepted member st /\ isTemporaryEmail (email member) = true
      /\ db_failure (db_members_update provider (id member) (newEmail st)) = None)
  /\ (calls = [] <-> ~ accepted member st).
Proof.
  intros calls update reset. subst calls update reset.
  run_cases member provider origin st.
  - split; [ left; reflexivity | split; split ].
    + discriminate.
    + intros (A & _). apply accepted_not_rejected in A as [A _]. contradiction.
    + intros _ A. apply accepted_not_rejected in A as [A _]. contradiction.
    + reflexivity.
  - split; [ left; reflexivity | split; split ].
    + discriminate.
    + intros (A & _). apply accepted_not_rejected in A as [_ A]. contradiction.
    + intros _ A. apply accepted_not_rejected in A as [_ A]. contradiction.
    + reflexivity.
  - split; [ right; left; reflexivity | split; split ].
    + discriminate.
    + intros (_ & _ & C). congruence.
    + discriminate.
    + intros C. contradiction.
  - assert (Hn : db_failure (db_members_update provider (id member) (newEmail st))
                 = None) by (rewrite Hdb; reflexivity).
    destruct m; (split; [ right; right; left; reflexivity | split; split ]);
      auto; try discriminate; intros C; contradiction.
  - split; [ do 3 right; reflexivity | split; split ].
    + discriminate.
    + intros (_ & C & _). congruence.
    + discriminate.
    + intros C. contradiction.
  - split; [ do 3 right; reflexivity | split; split ].
    + discriminate.
    + intros (_ & C & _). congruence.
    + discriminate.
    + intros C. contradiction.
Qed.

Lemma handleEmailUpdate_calls_witness :
  provider_calls
    (trace_of (handleEmailUpdate temporaryMember obligingProvider
                 "https://fitgym.example" (typing "sarah@outlook.com")))
  = [db_members_update_ev "6f1c2a9e-17" "sarah@outlook.com";
     supabase_auth_resetPasswordForEmail_ev "sarah@outlook.com"
       "https://fitgym.example/reset-password"].
Proof.
  destruct (handleEmailUpdate_calls temporaryMember obligingProvider
              "https://fitgym.example" (typing "sarah@outlook.com"))
    as (_ & H & _).
  apply H. split; [ | split ].
  - split; [ simpl; discriminate | split; [ simpl; discriminate | ] ].
    vm_compute. reflexivity.
  - vm_compute. reflexivity.
  - reflexivity.
Defined.


(** X8. [onMemberUpdate] is called with a record exactly when the new
    address passed the guards, the current address is temporary, and
    [db.members.update] answered with that record and no error; it is then
    called once, after the toast. *)
Theorem onMemberUpdate_exactly
    (member : Member) (provider : Provider) (origin : string) (st : State)
    (updated : Member) :
  let tr := trace_of (handleEmailUpdate member provider origin st) in
  (In updated (onMemberUpdate_calls tr) <->
   accepted member st /\ isTemporaryEmail (email member) = true
   /\ db_members_update provider (id member) (newEmail st)
      = Resolved (Some updated, None))
  /\ (In updated (onMemberUpdate_calls tr) ->
      onMemberUpdate_calls tr = [updated]
      /\ exists before,
           tr = before ++ [toast_ev (emailUpdatedToast (newEmail st));
                           onMemberUpdate_ev updated]).
Proof.
  intros tr. subst tr. run_cases member provider origin st.
  - split; [ split | ]; simpl; try contradiction.
    intros (A & _). apply accepted_not_rejected in A as [A _]. contradiction.
  - split; [ split | ]; simpl; try contradiction.
    intros (A & _). apply accepted_not_rejected in A as [_ A]. contradiction.
  - split; [ split | ]; simpl; try contradiction.
    intros (_ & _ & C). rewrite C in Hf. discriminate.
  - destruct m as [m' | ]; simpl.
    + split; [ split | ].
      * intros [<- | []]. auto.
      * intros (_ & _ & C). rewrite C in Hdb. injection Hdb as <-. auto.
      * intros [<- | []]. split; [ reflexivity | ].
        exists [console_log_ev "🔄 Handling temporary email update...";
                console_log_ev "📧 Extracted member ID from temp email:";
                db_members_update_ev (id member) (newEmail st);
                console_log_ev "✅ Member email updated in database:";
                supabase_auth_resetPasswordForEmail_ev (newEmail st)
                  (origin ++ "/reset-password");
                console_log_ev
                  (reset_log_text
                     (supabase_auth_resetPasswordForEmail provider
                        (newEmail st) (origin ++ "/reset-password")))].
        reflexivity.
    + split; [ split | ]; try contradiction.
      intros (_ & _ & C). rewrite C in Hdb. discriminate.
  - split; [ split | ]; simpl; try contradiction.
    intros (_ & C & _). congruence.
  - split; [ split | ]; simpl; try contradiction.
    intros (_ & C & _). congruence.
Qed.

Lemma onMemberUpdate_exactly_witness :
  onMemberUpdate_calls
    (trace_of (handleEmailUpdate temporaryMember obligingProvider
                 "https://fitgym.example" (typing "sarah@outlook.com")))
  = [mkMember "6f1c2a9e-17" "sarah@outlook.com" false "2024-03-01" "2024-05-05"].
Proof.
  destruct (onMemberUpdate_exactly temporaryMember obligingProvider
              "https://fitgym.example" (typing "sarah@outlook.com")
              (mkMember "6f1c2a9e-17" "sarah@outlook.com" false
                        "2024-03-01" "2024-05-05"))
    as [[_ H1] H2].
  apply H2. apply H1. split; [ | split ].
  - split; [ simpl; discriminate | split; [ simpl; discriminate | ] ].
    vm_compute. reflexivity.
  - vm_compute. reflexivity.
  - reflexivity.
Defined.


(** X10. [handlePasswordReset] has no guard for temporary addresses: for a
    member whose e-mail is still the staff-made placeholder the reset mail
    is requested for that placeholder address. *)
Theorem handlePasswordReset_temporary
    (member : Member) (provider : Provider) (st : State) :
  isTemporaryEmail (email member) = true ->
  provider_calls (trace_of (handlePasswordReset member provider st))
  = [auth_resetPassword_ev (email member)]
  /\ temporary_email_form (email member).
Proof.
  intros Ht. apply isTemporaryEmail_form in Ht.
  split; [ | exact Ht ].
  assert (N : email member <> "").
  { destruct Ht as (d & Hne & _ & ->). destruct d; [ contradiction | discriminate ]. }
  rewrite (@handlePasswordReset_run member provider st N).
  destruct (auth_failure (auth_resetPassword provider (email member)));
    reflexivity.
Qed.

Lemma handlePasswordReset_temporary_witness :
  provider_calls (trace_of (handlePasswordReset temporaryMember obligingProvider
                              initialState))
  = [auth_resetPassword_ev "1042@gmail.com"]
  /\ temporary_email_form (email temporaryMember).
Proof.
  apply (handlePasswordReset_temporary temporaryMember obligingProvider
           initialState).
  vm_compute. reflexivity.
Defined.

End HandlerFacts.

(* ================================================================== *)
(** ** What holds throughout a session *)

Module SessionFacts.

Import JsString Regex RegexFacts MemberSettings SettingsView TemporaryEmail
       PatternFacts Runs ValidationFacts HandlerFacts.
Local Open Scope handler_scope.

#[local] Arguments isTemporaryEmail : simpl never.
#[local] Arguments test : simpl never.
#[local] Arguments verdict : simpl never.
#[local] Arguments String.append : simpl never.
#[local] Arguments emailUpdateErrorMessage : simpl never.

Lemma handleEmailChange_run (text : string) (st : State) :
  handleEmailChange text st =
  (Ok tt,
   mkState text (verdict text) (emailUpdateLoading st) (passwordResetLoading st)
           (if EmailUpdateStatus_eqb (emailUpdateStatus st) error
            then idle else emailUpdateStatus st)
           (updatedEmail st),
   []).
Proof.
  unfold handleEmailChange, bind, get, setNewEmail, modify.
  rewrite validateEmailFormat_run.
  destruct (emailUpdateStatus st); reflexivity.
Qed.

Lemma verdict_empty : verdict "" = None.
Proof. reflexivity. Qed.

(** An enabled update button over a verdict that matches the input: the
    input was marked valid. *)
Lemma enabled_means_valid (st : State) :
  emailValidation st = verdict (newEmail st) ->
  updateButtonDisabled st = false ->
  verdict (newEmail st) = Some (mkValidation true "Valid email format")
  /\ test emailRegex (newEmail st) = true
  /\ fake_local_part (newEmail st) = false
  /\ fake_domain (newEmail st) = false.
Proof.
  intros Hv Hen. unfold updateButtonDisabled in Hen. rewrite Hv in Hen.
  rewrite verdict_cases in *.
  destruct (emailUpdateLoading st); [ discriminate | ].
  destruct (truthy (newEmail st)); [ | discriminate ].
  simpl in *.
  destruct (test emailRegex (newEmail st)); simpl in *; [ | discriminate ].
  destruct (fake_local_part (newEmail st)); simpl in *; [ discriminate | ].
  destruct (fake_domain (newEmail st)); simpl in *; [ discriminate | ].
  repeat split.
Qed.

Section WithProps.

Variable member : Member.
Variable origin : string.

Lemma settled_initial : settled member initialState.
Proof.
  split; [ reflexivity | split; [ discriminate | ] ].
  intros _ C. discriminate.
Qed.

Lemma settled_handleEmailUpdate (provider : Provider) (st : State) :
  settled member st -> settled member (state_of (handleEmailUpdate member provider origin st)).
Proof.
  intros (I1 & I2 & I3). run_cases member provider origin st; simpl.
  - split; auto.
  - split; auto.
  - split; [ exact I1 | split; [ discriminate | ] ]. intros _ C. discriminate.
  - destruct A as (A1 & A2 & A3).
    split; [ reflexivity | split; [ discriminate | ] ]. auto.
  - split; [ reflexivity | split; [ discriminate | ] ]. intros C. congruence.
  - split; [ exact I1 | split; [ discriminate | ] ]. intros _ C. discriminate.
Qed.

Lemma settled_step (provider : Provider) (a : Action) (st : State) :
  settled member st -> settled member (state_of (perform member origin provider a st)).
Proof.
  intros I. pose proof I as (I1 & I2 & I3). destruct a as [ text | | | ]; simpl.
  - unfold bind, get. destruct (inputDisabled st); [ exact I | ].
    rewrite handleEmailChange_run. simpl.
    split; [ reflexivity | split ].
    + destruct (emailUpdateStatus st); simpl; congruence.
    + intros Ht Hp. apply I3; [ exact Ht | ].
      destruct (emailUpdateStatus st); simpl in Hp; congruence.
  - unfold clickUpdateButton, bind, get.
    destruct (updateButtonDisabled st); [ exact I | ].
    pose proof (settled_handleEmailUpdate provider I) as I'.
    destruct (handleEmailUpdate member provider origin st) as [[o' st'] tr'].
    exact I'.
  - unfold clickResetButton, bind, get.
    destruct (resetButtonShown st); [ | exact I ].
    split; [ reflexivity | split; [ discriminate | ] ]. intros _ C. discriminate.
  - unfold bind, get. destruct (passwordButtonDisabled st); [ exact I | ].
    destruct (String.eqb_spec (email member) "") as [E | N].
    + rewrite (@handlePasswordReset_no_email member provider st E). exact I.
    + rewrite (@handlePasswordReset_run member provider st N). exact I.
Qed.

Lemma reachable_settled (st : State) :
  reachable member origin st -> settled member st.
Proof.
  induction 1 as [ | st provider a _ IH ].
  - apply settled_initial.
  - apply settled_step. exact IH.
Qed.

End WithProps.

Lemma clickUpdateButton_enabled
    (member : Member) (provider : Provider) (origin : string) (st : State) :
  updateButtonDisabled st = false ->
  clickUpdateButton member provider origin st
  = handleEmailUpdate member provider origin st.
Proof.
  intros D. unfold clickUpdateButton, bind, get. rewrite D.
  destruct (handleEmailUpdate member provider origin st) as [[o' st'] tr'].
  reflexivity.
Qed.

(** The card after "sarah@outlook.com" was typed and the update button
    clicked, every call succeeding. *)
Lemma reachable_sample :
  reachable temporaryMember "https://fitgym.example"
    (state_of
       (perform temporaryMember "https://fitgym.example" obligingProvider
          click_update
          (state_of
             (perform temporaryMember "https://fitgym.example" obligingProvider
                (type_in "sarah@outlook.com") initialState)))).
Proof. do 2 apply reachable_step. apply reachable_initial. Qed.

(** X11. Throughout a session the verdict kept in [emailValidation] is the
    one [validateEmailFormat] gives for the text now in the input field:
    no action changes one without the other. *)
Theorem verdict_tracks_input
    (member : Member) (origin : string) (st : State) :
  reachable member origin st ->
  emailValidation st = verdict (newEmail st).
Proof.
  intros R. apply (reachable_settled R).
Qed.

Lemma verdict_tracks_input_witness :
  emailValidation
    (state_of (perform temporaryMember "https://fitgym.example" obligingProvider
                 (type_in "Sarah@Example.org") initialState))
  = verdict "Sarah@Example.org".
Proof.
  apply (@verdict_tracks_input temporaryMember "https://fitgym.example"
           (state_of (perform temporaryMember "https://fitgym.example"
                        obligingProvider (type_in "Sarah@Example.org")
                        initialState))).
  apply reachable_step. apply reachable_initial.
Defined.

(** X12. No action ever sets [emailUpdateStatus] to 'success': throughout
    a session the status is 'idle', 'pending' or 'error'. *)
Theorem status_never_success
    (member : Member) (origin : string) (st : State) :
  reachable member origin st ->
  emailUpdateStatus st = idle \/ emailUpdateStatus st = pending
  \/ emailUpdateStatus st = error.
Proof.
  intros R. destruct (reachable_settled R) as (_ & N & _).
  destruct (emailUpdateStatus st); auto. contradiction.
Qed.

Lemma status_never_success_witness :
  let st := state_of
              (perform temporaryMember "https://fitgym.example" obligingProvider
                 click_update
                 (state_of
                    (perform temporaryMember "https://fitgym.example"
                       obligingProvider (type_in "sarah@outlook.com")
                       initialState))) in
  emailUpdateStatus st = idle \/ emailUpdateStatus st = pending
  \/ emailUpdateStatus st = error.
Proof.
  apply (@status_never_success temporaryMember "https://fitgym.example").
  exact reachable_sample.
Defined.

(** X13. For a member with a temporary address, whenever the status is
    'pending' the address kept in [updatedEmail], which the "Next steps"
    panel shows, is one that passed the guards of [handleEmailUpdate]: it
    matches the format pattern and differs from the member's address. *)
Theorem pending_shows_accepted_address
    (member : Member) (origin : string) (st : State) :
  reachable member origin st ->
  isTemporaryEmail (email member) = true ->
  emailUpdateStatus st = pending ->
  well_formed_email (updatedEmail st) /\ updatedEmail st <> email member.
Proof.
  intros R Ht Hp. destruct (reachable_settled R) as (_ & _ & I).
  destruct (I Ht Hp) as [Hr Hn]. split; [ | exact Hn ].
  apply emailRegex_only_well_formed. exact Hr.
Qed.

Lemma pending_shows_accepted_address_witness :
  let st := state_of
              (perform temporaryMember "https://fitgym.example" obligingProvider
                 click_update
                 (state_of
                    (perform temporaryMember "https://fitgym.example"
                       obligingProvider (type_in "sarah@outlook.com")
                       initialState))) in
  updatedEmail st = "sarah@outlook.com"
  /\ well_formed_email (updatedEmail st)
  /\ updatedEmail st <> email temporaryMember.
Proof.
  split; [ vm_compute; reflexivity | ].
  apply (@pending_shows_accepted_address temporaryMember "https://fitgym.example").
  - exact reachable_sample.
  - vm_compute. reflexivity.
  - vm_compute. reflexivity.
Defined.

(** X14. Throughout a session a click on the update button reaches the
    provider only with an address that [validateEmailFormat] marked valid
    (well-formed, none of the fake local parts or domains) and that
    differs from the member's; and the guard toast "Please enter a valid
    email address" of [handleEmailUpdate] is never what a click gives. *)
Theorem button_calls_validated
    (member : Member) (provider : Provider) (origin : string) (st : State) :
  reachable member origin st ->
  let tr := trace_of (clickUpdateButton member provider origin st) in
  (provider_calls tr <> [] ->
   verdict (newEmail st) = Some (mkValidation true "Valid email format")
   /\ well_formed_email (newEmail st)
   /\ fake_local_part (newEmail st) = false
   /\ fake_domain (newEmail st) = false
   /\ newEmail st <> email member)
  /\ tr <> [toast_ev (mkToast "Error" "Please enter a valid email address"
                              destructive)].
Proof.
  intros R tr. subst tr.
  destruct (reachable_settled R) as (I1 & _ & _).
  destruct (updateButtonDisabled st) eqn:D.
  - unfold clickUpdateButton, bind, get. rewrite D. simpl.
    split; [ intros C; contradiction C; reflexivity | discriminate ].
  - rewrite (clickUpdateButton_enabled member provider origin st D).
    destruct (enabled_means_valid st I1 D) as (V & Hw & F1 & F2).
    pose proof (emailRegex_only_well_formed (newEmail st) Hw) as W.
    run_cases member provider origin st.
    + split; [ intros C; contradiction C; reflexivity | discriminate ].
    + destruct G as (_ & _ & C). congruence.
    + destruct A as (_ & A2 & _). split; [ intros _; tauto | discriminate ].
    + destruct A as (_ & A2 & _).
      split; [ intros _; tauto | destruct m; discriminate ].
    + destruct A as (_ & A2 & _). split; [ intros _; tauto | discriminate ].
    + destruct A as (_ & A2 & _). split; [ intros _; tauto | discriminate ].
Qed.

Lemma button_calls_validated_witness :
  let st := state_of
              (perform regularMember "https://fitgym.example" obligingProvider
                 (type_in "test@test.com") initialState) in
  provider_calls
    (trace_of (clickUpdateButton regularMember obligingProvider
                 "https://fitgym.example" st)) = []
  /\ trace_of (clickUpdateButton regularMember obligingProvider
                 "https://fitgym.example" st)
     <> [toast_ev (mkToast "Error" "Please enter a valid email address"
                           destructive)].
Proof.
  split; [ vm_compute; reflexivity | ].
  apply (@button_calls_validated regularMember obligingProvider
           "https://fitgym.example"
           (state_of (perform regularMember "https://fitgym.example"
                        obligingProvider (type_in "test@test.com")
                        initialState))).
  apply reachable_step. apply reachable_initial.
Defined.

End SessionFacts.

(* ================================================================== *)
(** ** Placeholder addresses as new addresses, and the two format checks *)

Module FormatFacts.

Import JsString Regex RegexFacts MemberSettings SettingsView TemporaryEmail
       PatternFacts Runs ValidationFacts HandlerFacts.
Local Open Scope handler_scope.

#[local] Arguments test : simpl never.
#[local] Arguments includes : simpl never.
#[local] Arguments isTemporaryEmail : simpl never.
#[local] Arguments String.append : simpl never.
#[local] Arguments emailUpdateErrorMessage : simpl never.

Lemma lower_char_digit (c : ascii) : digit c = true -> lower_char c = c.
Proof.
  destruct c as [[] [] [] [] [] [] [] []]; vm_compute; intros H;
    try reflexivity; discriminate.
Qed.

Lemma digit_not_at (c : ascii) : digit c = true -> c <> "@"%char.
Proof. intros H ->. vm_compute in H. discriminate. Qed.

Lemma digit_not_letter_t (c : ascii) :
  digit c = true -> c <> "t"%char /\ c <> "f"%char.
Proof. intros H. split; intros ->; vm_compute in H; discriminate. Qed.

Lemma toLowerCase_app (a b : string) :
  toLowerCase (a ++ b) = (toLowerCase a ++ toLowerCase b)%string.
Proof. induction a as [ | c a IH ]; simpl; [ | rewrite IH ]; reflexivity. Qed.

Lemma toLowerCase_digits (d : string) :
  all_digits d = true -> toLowerCase d = d.
Proof.
  unfold all_digits. induction d as [ | c d IH ]; simpl; [ reflexivity | ].
  rewrite andb_true_iff. intros [Hc Hd].
  rewrite (lower_char_digit c Hc), (IH Hd). reflexivity.
Qed.

(** Leading characters that differ from the first character of the
    searched text are skipped by [includes]. *)
Lemma includes_skip (a : ascii) (sub rest : string) (d : string) :
  (forall c, In c (list_ascii_of_string d) -> c <> a) ->
  includes (d ++ rest) (String a sub) = includes rest (String a sub).
Proof.
  induction d as [ | c d IH ]; intros H; [ reflexivity | ].
  change (String c d ++ rest)%string with (String c (d ++ rest)).
  rewrite includes_unfold.
  assert (P : String.prefix (String a sub) (String c (d ++ rest)) = false).
  { simpl. destruct (ascii_dec a c) as [E | N]; [ | reflexivity ].
    exfalso. apply (H c); [ left; reflexivity | congruence ]. }
  rewrite P. apply IH. intros c' Hin. apply H. right. exact Hin.
Qed.

Lemma prefix_head_differs (a c : ascii) (p s : string) :
  a <> c -> String.prefix (String a p) (String c s) = false.
Proof.
  intros N. simpl. destruct (ascii_dec a c) as [E | _]; [ contradiction | reflexivity ].
Qed.

Lemma temporary_not_fake (e : string) :
  temporary_email_form e ->
  fake_local_part e = false /\ fake_domain e = false.
Proof.
  intros (d & Hne & Hd & ->).
  unfold fake_local_part, fake_domain.
  rewrite toLowerCase_app, (toLowerCase_digits d Hd).
  change (toLowerCase "@gmail.com") with "@gmail.com".
  assert (Hall : forall c, In c (list_ascii_of_string d) -> digit c = true).
  { unfold all_digits in Hd. rewrite forallb_forall in Hd. exact Hd. }
  split.
  - destruct d as [ | c d ]; [ contradiction | ].
    destruct (digit_not_letter_t c (Hall c (or_introl eq_refl))) as [Nt Nf].
    change (String c d ++ "@gmail.com")%string with (String c (d ++ "@gmail.com")).
    rewrite !prefix_head_differs by congruence. reflexivity.
  - rewrite !includes_skip
      by (intros c Hin; apply digit_not_at, Hall; exact Hin).
    reflexivity.
Qed.

(** X4. An address of the temporary form is accepted as a new address:
    [validateEmailFormat] marks it valid and the format pattern of
    [handleEmailUpdate] matches it, so for a member with a temporary
    address, typing another placeholder and running [handleEmailUpdate]
    sends it to [db.members.update]. *)
Theorem temporary_form_accepted_as_new (e : string) :
  isTemporaryEmail e = true ->
  verdict e = Some (mkValidation true "Valid email format")
  /\ test emailRegex e = true
  /\ (forall member provider origin st,
        newEmail st = e -> e <> email member ->
        isTemporaryEmail (email member) = true ->
        db_members_update_calls
          (trace_of (handleEmailUpdate member provider origin st))
        = [(id member, e)]).
Proof.
  intros Hform. apply isTemporaryEmail_form in Hform.
  assert (R : test emailRegex e = true).
  { apply well_formed_passes_emailRegex, temporary_is_well_formed. exact Hform. }
  destruct (temporary_not_fake Hform) as [F1 F2].
  split; [ | split; [ exact R | ] ].
  - rewrite verdict_cases, R, F1, F2, (emailRegex_nonempty e R). reflexivity.
  - intros member provider origin st En Hd Hm. subst e.
    run_cases member provider origin st.
    + destruct G as [G | G]; [ | contradiction ].
      rewrite G in R. vm_compute in R. discriminate.
    + destruct G as (_ & _ & C). congruence.
    + reflexivity.
    + destruct m; reflexivity.
    + congruence.
    + congruence.
Qed.

Lemma temporary_form_accepted_as_new_witness :
  verdict "2077@gmail.com" = Some (mkValidation true "Valid email format")
  /\ db_members_update_calls
       (trace_of (handleEmailUpdate temporaryMember obligingProvider
                    "https://fitgym.example" (typing "2077@gmail.com")))
     = [(id temporaryMember, "2077@gmail.com")].
Proof.
  destruct (temporary_form_accepted_as_new "2077@gmail.com") as (V & _ & H).
  - vm_compute. reflexivity.
  - split; [ exact V | ].
    apply (H temporaryMember obligingProvider "https://fitgym.example"
             (typing "2077@gmail.com")).
    + reflexivity.
    + simpl. discriminate.
    + vm_compute. reflexivity.
Defined.

(** X15. The live validation and [handleEmailUpdate] agree on the format:
    for a non-empty input that differs from the member's address, the
    verdict is "Invalid email format" exactly when the format pattern
    fails, which is exactly when a run of [handleEmailUpdate] consists of
    the toast "Please enter a valid email address" and nothing else. *)
Theorem format_checks_agree
    (member : Member) (provider : Provider) (origin : string) (st : State) :
  newEmail st <> "" ->
  newEmail st <> email member ->
  (verdict (newEmail st) = Some (mkValidation false "Invalid email format")
   <-> test emailRegex (newEmail st) = false)
  /\ (test emailRegex (newEmail st) = false
      <-> trace_of (handleEmailUpdate member provider origin st)
          = [toast_ev (mkToast "Error" "Please enter a valid email address"
                               destructive)]).
Proof.
  intros N1 N2. split.
  - rewrite verdict_cases. apply truthy_nonempty in N1. rewrite N1. simpl.
    destruct (test emailRegex (newEmail st)); simpl.
    + destruct (fake_local_part (newEmail st)); [ | destruct (fake_domain (newEmail st)) ];
        split; discriminate.
    + split; reflexivity.
  - run_cases member provider origin st.
    + destruct G; contradiction.
    + destruct G as (_ & _ & Hf). split; auto.
    + destruct A as (_ & _ & A3). split; [ congruence | discriminate ].
    + destruct A as (_ & _ & A3).
      split; [ congruence | destruct m; discriminate ].
    + destruct A as (_ & _ & A3). split; [ congruence | discriminate ].
    + destruct A as (_ & _ & A3). split; [ congruence | discriminate ].
Qed.

Lemma format_checks_agree_witness :
  verdict "sarah@outlook" = Some (mkValidation false "Invalid email format")
  /\ trace_of (handleEmailUpdate regularMember obligingProvider
                 "https://fitgym.example" (typing "sarah@outlook"))
     = [toast_ev (mkToast "Error" "Please enter a valid email address"
                          destructive)].
Proof.
  destruct (format_checks_agree regularMember obligingProvider
              "https://fitgym.example" (typing "sarah@outlook")) as [H1 H2].
  - simpl. discriminate.
  - simpl. discriminate.
  - split.
    + apply H1. vm_compute. reflexivity.
    + apply H2. vm_compute. reflexivity.
Defined.

End FormatFacts.
